(** * Submission validator

    A shallow embedding of [tests/test_submission_validator.py]: the class
    [SubmissionValidator], its constructor, [_read_csv] and
    [run_all_validations], followed by the properties of the validation
    report.

    Python strings are modelled as [string] holding their UTF-8 bytes: the
    byte-wise lexicographic order of [String.le] is then the code-point order
    Python's [sorted] uses.  A Python [set] of strings is a [gset string]. *)

From Stdlib Require Import Ascii String.
From stdpp Require Import base option list sorting gmap sets strings pretty.

Local Open Scope string_scope.
Local Open Scope list_scope.

#[local] Set Warnings "-clear-no-such-hyp".

(** ** Strings: [str.strip] *)

Definition utf8 (bytes : list nat) : string :=
  string_of_list_ascii (map ascii_of_nat bytes).

(** The code points for which [str.isspace] holds, as UTF-8 byte sequences:
    U+0009..U+000D, U+001C..U+0020, U+0085, U+00A0, U+1680, U+2000..U+200A,
    U+2028, U+2029, U+202F, U+205F, U+3000. *)
Definition whitespace : list string :=
  map utf8
    ([[9]; [10]; [11]; [12]; [13]; [28]; [29]; [30]; [31]; [32];
      [194; 133]; [194; 160]; [225; 154; 128]]
     ++ map (λ b, [226; 128; b]) (seq 128 11)
     ++ [[226; 128; 168]; [226; 128; 169]; [226; 128; 175];
         [226; 129; 159]; [227; 128; 128]]).

(** [drop_prefix p s] is [Some s'] when [s = p ++ s']. *)
Fixpoint drop_prefix (p s : string) : option string :=
  match p with
  | EmptyString => Some s
  | String a p' =>
      match s with
      | EmptyString => None
      | String b s' => if Ascii.eqb a b then drop_prefix p' s' else None
      end
  end.

Fixpoint drop_first_of (ps : list string) (s : string) : option string :=
  match ps with
  | [] => None
  | p :: ps' =>
      match drop_prefix p s with
      | Some s' => Some s'
      | None => drop_first_of ps' s
      end
  end.

Fixpoint lstrip_with (ps : list string) (fuel : nat) (s : string) : string :=
  match fuel with
  | O => s
  | S fuel' =>
      match drop_first_of ps s with
      | Some s' => lstrip_with ps fuel' s'
      | None => s
      end
  end.

Definition lstrip (s : string) : string :=
  lstrip_with whitespace (String.length s) s.

Definition rstrip (s : string) : string :=
  String.rev
    (lstrip_with (map String.rev whitespace) (String.length s) (String.rev s)).

Definition strip (s : string) : string := rstrip (lstrip s).

(** [sorted(xs)] on strings. *)
Definition sorted (l : list string) : list string := merge_sort String.le l.

(** ** Exceptions and the outside world *)

Inductive exn : Type :=
  | AttributeError (msg : string)
  | IndexError (msg : string)
  | Exception (msg : string).

(** [str(e)] *)
Definition str_exn (e : exn) : string :=
  match e with
  | AttributeError msg | IndexError msg | Exception msg => msg
  end.

(** A [pathlib.Path], by its text [str(path)]. *)
Definition Path : Type := string.

(** What the validator sees of [pathlib], the file system and [csv.reader]:
    [csv_reader p] is the list of raw rows [csv.reader(f, delimiter=";")]
    yields for the file at [p], or [str(e)] of the exception that opening,
    decoding or parsing raised.  [path_exists p] is the boolean [p.exists()]
    returns; a call of [exists()] that itself raises (an [OSError] other than
    a missing file) is not part of this model. *)
Record World : Type := {
  Path_ : string → Path;            (* Path(s) *)
  project_file : string → Path;     (* current_dir.parent / s *)
  path_exists : Path → bool;        (* p.exists() *)
  csv_reader : Path → string + list (list string)
}.

(** ** The validator *)

(** One entry of the report, the tuple [(name, passed, detail)]. *)
Definition CheckResult : Type := (string * bool * option string)%type.

Definition name (r : CheckResult) : string := r.1.1.
Definition passed (r : CheckResult) : bool := r.1.2.
Definition detail (r : CheckResult) : option string := r.2.

Record SubmissionValidator : Type := {
  submission_path : option Path;
  test_path : Path;
  valid_methods : gset string
}.

Definition __init__ (w : World) (test_path_arg : string)
    (submission_path_arg : option string) : SubmissionValidator :=
  {| submission_path :=
       match submission_path_arg with
       | None => submission_path_arg
       | Some s => Some (Path_ w s)
       end;
     test_path := project_file w test_path_arg;
     valid_methods :=
       {[ "GET"; "POST"; "PUT"; "DELETE"; "PATCH"; "HEAD"; "OPTIONS" ]} |}.

Definition _read_csv (w : World) (file_path : Path)
    : exn + list (list string) :=
  match csv_reader w file_path with
  | inl e =>
      inl (Exception ("Не удалось прочитать файл " +:+ file_path +:+ ": " +:+ e))
  | inr rows => inr (map (map strip) rows)
  end.

(** [row[0] for row in rows], raising [IndexError] at the first empty row. *)
Fixpoint first_cells (rows : list (list string)) : exn + list string :=
  match rows with
  | [] => inr []
  | row :: rows' =>
      match row with
      | [] => inl (IndexError "list index out of range")
      | c :: _ =>
          match first_cells rows' with
          | inl e => inl e
          | inr cs => inr (c :: cs)
          end
      end
  end.

(** The body of the [for] loop for the row numbered [i]. *)
Definition check_row (self : SubmissionValidator) (i : nat) (row : list string)
    (results : list CheckResult) (submission_uids : gset string)
    : list CheckResult * gset string :=
  match row with
  | [uid; method; request] =>
      if bool_decide (uid = "") || bool_decide (method = "")
         || bool_decide (request = "")
      then
        (results ++
           [("Проверка пустых значений (строка " +:+ pretty i +:+ ")",
             false,
             Some ("Строка " +:+ pretty i +:+ ": обнаружены пустые значения"))],
         submission_uids)
      else
        let results :=
          if bool_decide (uid ∈ submission_uids) then
            results ++
              [("Проверка уникальности uid (строка " +:+ pretty i +:+ ")",
                false,
                Some ("Строка " +:+ pretty i +:+ ": дублирование uid '"
                      +:+ uid +:+ "'"))]
          else results in
        let submission_uids := submission_uids ∪ {[ uid ]} in
        let results :=
          if negb (bool_decide (method ∈ valid_methods self)) then
            results ++
              [("Проверка валидности HTTP метода (строка " +:+ pretty i +:+ ")",
                false,
                Some ("Строка " +:+ pretty i +:+ ": некорректный HTTP метод '"
                      +:+ method +:+ "'. Допустимые значения: "
                      +:+ String.concat ", "
                            (sorted (elements (valid_methods self)))))]
          else results in
        let results :=
          if negb (String.prefix "/" request) then
            results ++
              [("Проверка валидности API пути (строка " +:+ pretty i +:+ ")",
                false,
                Some ("Строка " +:+ pretty i +:+ ": некорректный путь запроса '"
                      +:+ request +:+ "'. Путь должен начинаться с '/'"))]
          else results in
        (results, submission_uids)
  | _ => (results, submission_uids)
  end.

(** [for i, row in enumerate(rows, start=i): ...] *)
Fixpoint row_loop (self : SubmissionValidator) (i : nat)
    (rows : list (list string)) (results : list CheckResult)
    (submission_uids : gset string) : list CheckResult * gset string :=
  match rows with
  | [] => (results, submission_uids)
  | row :: rows' =>
      let '(results, submission_uids) :=
        check_row self i row results submission_uids in
      row_loop self (S i) rows' results submission_uids
  end.

(** The body of the [try] block, started with the results accumulated so far.
    It ends with the results it has accumulated and, when it raised, the
    exception; [return results] inside the block and falling through to the
    final [return results] are the same [None]. *)
Definition try_block (w : World) (self : SubmissionValidator) (sp : Path)
    (results : list CheckResult) : list CheckResult * option exn :=
  match _read_csv w sp with
  | inl e => (results, Some e)
  | inr submission_data =>
  match _read_csv w (test_path self) with
  | inl e => (results, Some e)
  | inr test_data =>
      if bool_decide (length submission_data = 0) then
        (results ++
           [("Проверка структуры файла", false,
             Some "Файл submission.csv пуст")],
         None)
      else if negb (forallb (λ row, bool_decide (length row = 3))
                      submission_data) then
        (results ++
           [("Проверка структуры файла", false,
             Some "Некорректная структура файла: ожидается 3 колонки (uid;type;request)")],
         None)
      else
        let results := results ++ [("Проверка структуры файла", true, None)] in
        let submission_rows := drop 1 submission_data in
        match first_cells (drop 1 test_data) with
        | inl e => (results, Some e)
        | inr cells =>
            let test_uids : gset string := list_to_set cells in
            let '(results, submission_uids) :=
              row_loop self 2 submission_rows results ∅ in
            let results :=
              if negb (bool_decide (length submission_rows = size test_uids))
              then
                results ++
                  [("Проверка соответствия количества строк", false,
                    Some ("Некорректное количество строк: ожидается "
                          +:+ pretty (size test_uids) +:+ ", найдено "
                          +:+ pretty (length submission_rows)))]
              else
                results ++
                  [("Проверка соответствия количества строк", true, None)] in
            let missing_uids := test_uids ∖ submission_uids in
            let results :=
              if negb (bool_decide (missing_uids = ∅)) then
                results ++
                  [("Проверка наличия всех uid из test.csv", false,
                    Some ("Отсутствуют записи для uid: "
                          +:+ String.concat ", "
                                (take 5 (sorted (elements missing_uids)))
                          +:+ (if bool_decide (5 < size missing_uids)
                               then "..." else "")))]
              else
                results ++
                  [("Проверка наличия всех uid из test.csv", true, None)] in
            let extra_uids := submission_uids ∖ test_uids in
            let results :=
              if negb (bool_decide (extra_uids = ∅)) then
                results ++
                  [("Проверка отсутствия лишних uid", false,
                    Some ("Обнаружены лишние uid, отсутствующие в test.csv: "
                          +:+ String.concat ", "
                                (take 5 (sorted (elements extra_uids)))
                          +:+ (if bool_decide (5 < size extra_uids)
                               then "..." else "")))]
              else
                results ++ [("Проверка отсутствия лишних uid", true, None)] in
            (results, None)
        end
  end
  end.

(** How a call ends: with the returned list, or with an exception that
    reaches the caller. *)
Inductive outcome : Type :=
  | Returned (results : list CheckResult)
  | Raised (e : exn).

Definition run_all_validations (w : World) (self : SubmissionValidator)
    : outcome :=
  let results : list CheckResult := [] in
  match submission_path self with
  | None =>
      (* [None.exists()], before the [try] block *)
      Raised (AttributeError "'NoneType' object has no attribute 'exists'")
  | Some sp =>
      if negb (path_exists w sp) then
        Returned
          (results ++
             [("Проверка наличия submission файла", false,
               Some ("Файл " +:+ sp +:+ " не найден"))])
      else
        let results :=
          results ++ [("Проверка наличия submission файла", true, None)] in
        if negb (path_exists w (test_path self)) then
          Returned
            (results ++
               [("Проверка наличия test файла", false,
                 Some ("Файл " +:+ test_path self +:+ " не найден"))])
        else
          let results :=
            results ++ [("Проверка наличия test файла", true, None)] in
          match try_block w self sp results with
          | (results, None) => Returned results
          | (results, Some e) =>
              Returned
                (results ++
                   [("Проверка обработки файлов", false,
                     Some ("Ошибка при обработке файлов: " +:+ str_exn e))])
          end
  end.

(** ** A small world for examples: files given by a table *)

Definition table_world (files : list (Path * (string + list (list string))))
    : World :=
  {| Path_ := λ s, s;
     project_file := λ s, "/repo/" +:+ s;
     path_exists := λ p,
       bool_decide (is_Some (list_find (λ f, f.1 = p) files));
     csv_reader := λ p,
       match list_find (λ f, f.1 = p) files with
       | Some (_, (_, content)) => content
       | None => inl ("[Errno 2] No such file or directory: '" +:+ p +:+ "'")
       end |}.

(** ** The entries of the report, as the statements below name them *)

Definition submission_found : CheckResult :=
  ("Проверка наличия submission файла", true, None).

Definition test_found : CheckResult :=
  ("Проверка наличия test файла", true, None).

Definition structure_ok : CheckResult :=
  ("Проверка структуры файла", true, None).

(** The message [_read_csv] raises for the file at [p] when the underlying
    error reads [e]. *)
Definition read_error (p : Path) (e : string) : string :=
  "Не удалось прочитать файл " +:+ p +:+ ": " +:+ e.

Definition uniqueness_failure (i : nat) (uid : string) : CheckResult :=
  ("Проверка уникальности uid (строка " +:+ pretty i +:+ ")", false,
   Some ("Строка " +:+ pretty i +:+ ": дублирование uid '" +:+ uid +:+ "'")).

Definition is_uniqueness_check (r : CheckResult) : bool :=
  String.prefix "Проверка уникальности uid" (name r).

(** [', '.join(sorted(uids)[:5])] followed by ['...' if len(uids) > 5 else '']. *)
Definition uid_listing (uids : gset string) : string :=
  String.concat ", " (take 5 (sorted (elements uids)))
  +:+ (if bool_decide (5 < size uids) then "..." else "").

Definition row_count_result (found : nat) (test_uids : gset string)
    : CheckResult :=
  if negb (bool_decide (found = size test_uids)) then
    ("Проверка соответствия количества строк", false,
     Some ("Некорректное количество строк: ожидается "
           +:+ pretty (size test_uids) +:+ ", найдено " +:+ pretty found))
  else ("Проверка соответствия количества строк", true, None).

Definition missing_result (test_uids submission_uids : gset string)
    : CheckResult :=
  if negb (bool_decide (test_uids ∖ submission_uids = ∅)) then
    ("Проверка наличия всех uid из test.csv", false,
     Some ("Отсутствуют записи для uid: "
           +:+ uid_listing (test_uids ∖ submission_uids)))
  else ("Проверка наличия всех uid из test.csv", true, None).

Definition extra_result (test_uids submission_uids : gset string)
    : CheckResult :=
  if negb (bool_decide (submission_uids ∖ test_uids = ∅)) then
    ("Проверка отсутствия лишних uid", false,
     Some ("Обнаружены лишние uid, отсутствующие в test.csv: "
           +:+ uid_listing (submission_uids ∖ test_uids)))
  else ("Проверка отсутствия лишних uid", true, None).

(** What the row loop appends to the report and the uids it collects. *)
Definition row_results (self : SubmissionValidator)
    (rows : list (list string)) : list CheckResult :=
  (row_loop self 2 rows [] ∅).1.

Definition collected_uids (self : SubmissionValidator)
    (rows : list (list string)) : gset string :=
  (row_loop self 2 rows [] ∅).2.

(** The uid of a row of three non-empty cells. *)
Definition complete_uid (row : list string) : option string :=
  match row with
  | [uid; method; request] =>
      if bool_decide (uid = "") || bool_decide (method = "")
         || bool_decide (request = "")
      then None else Some uid
  | _ => None
  end.

(** Row [k] of [rows] (counted from 0) has three non-empty cells and carries
    [uid]. *)
Definition occurs (rows : list (list string)) (k : nat) (uid : string) : Prop :=
  ∃ row, rows !! k = Some row ∧ complete_uid row = Some uid.

(** The run gets past the existence checks, both reads and the structure
    check, and collects the reference uids [cells]: it reaches the row loop,
    and after it the aggregate checks. *)
Definition reaches_row_loop (w : World) (self : SubmissionValidator)
    (submission_data test_data : list (list string)) (cells : list string)
    : Prop :=
  ∃ sp,
    submission_path self = Some sp ∧
    path_exists w sp = true ∧
    path_exists w (test_path self) = true ∧
    _read_csv w sp = inr submission_data ∧
    _read_csv w (test_path self) = inr test_data ∧
    submission_data ≠ [] ∧
    Forall (λ row, length row = 3) submission_data ∧
    first_cells (drop 1 test_data) = inr cells.

(** The uniqueness failures of the rows [rows], numbered from [i], when the
    uids in [seen] have been met before them. *)
Fixpoint duplicates (i : nat) (rows : list (list string)) (seen : gset string)
    : list CheckResult :=
  match rows with
  | [] => []
  | row :: rows' =>
      match complete_uid row with
      | Some u =>
          (if bool_decide (u ∈ seen) then [uniqueness_failure i u] else [])
          ++ duplicates (S i) rows' (seen ∪ {[ u ]})
      | None => duplicates (S i) rows' seen
      end
  end.

(** The detail of a result is present exactly when the check failed. *)
Definition detail_iff_failed (r : CheckResult) : Prop :=
  is_Some (detail r) ↔ passed r = false.

(** [r] is the check called [title] over the difference set [diff]: it passes
    exactly when [diff] is empty, and otherwise its detail is [intro] followed
    by the first five uids of [diff] in lexicographic order, joined by
    [", "], and by ["..."] exactly when [diff] has more than five uids. *)
Definition reports_difference (title intro : string) (diff : gset string)
    (r : CheckResult) : Prop :=
  name r = title ∧
  (passed r = true ↔ diff = ∅) ∧
  (diff = ∅ → detail r = None) ∧
  (diff ≠ ∅ →
   ∃ listed,
     Sorted String.le listed ∧ listed ≡ₚ elements diff ∧
     detail r
     = Some (intro +:+ String.concat ", " (take 5 listed)
             +:+ (if bool_decide (5 < size diff) then "..." else ""))).

(** The first cells of the rows that have one. *)
Definition row_uids (rows : list (list string)) : list string :=
  omap head rows.

(** The valid input pairs: both files exist and are read, every row of the
    submission has three non-empty cells, every reference uid is the uid of
    exactly one submission data row and no other uid occurs there, every
    method is a valid one and every path starts with a slash. *)
Definition valid_input_pair (w : World) (self : SubmissionValidator)
    (submission_data test_data : list (list string)) : Prop :=
  ∃ sp,
    submission_path self = Some sp ∧
    path_exists w sp = true ∧
    path_exists w (test_path self) = true ∧
    _read_csv w sp = inr submission_data ∧
    _read_csv w (test_path self) = inr test_data ∧
    submission_data ≠ [] ∧
    Forall (λ row, is_Some (complete_uid row)) submission_data ∧
    (∀ u, u ∈ row_uids (drop 1 test_data) →
          count_occ string_dec (row_uids (drop 1 submission_data)) u = 1) ∧
    (∀ u, u ∈ row_uids (drop 1 submission_data) →
          u ∈ row_uids (drop 1 test_data)) ∧
    Forall (λ row, ∀ method, row !! 1 = Some method →
                             method ∈ valid_methods self)
           (drop 1 submission_data) ∧
    Forall (λ row, ∀ request, row !! 2 = Some request →
                              String.prefix "/" request = true)
           (drop 1 submission_data).

Definition all_checks_pass (w : World) (self : SubmissionValidator) : Prop :=
  ∃ results,
    run_all_validations w self = Returned results ∧
    Forall (λ r, passed r = true) results.

(** ** Example worlds *)

Definition no_files : World := table_world [].

Definition narrow_row : World :=
  table_world
    [("sub.csv", inr [["uid"; "type"; "request"]; ["1"; "GET"]]);
     ("/repo/test.csv", inr [["uid"; "question"]; ["1"; "q"]])].

Definition unreadable_test : World :=
  table_world
    [("sub.csv", inr [["uid"; "type"; "request"]; ["1"; "GET"; "/a"]]);
     ("/repo/test.csv",
      inl "'utf-8' codec can't decode byte 0xff in position 0: invalid start byte")].

Definition repeated_uids : World :=
  table_world
    [("sub.csv", inr [["uid"; "type"; "request"];
                      ["a"; "GET"; "/x"];
                      ["b"; ""; "/y"];
                      ["a"; "POST"; "/z"];
                      ["b"; "GET"; "/y"];
                      ["a"; "PUT"; "/q"];
                      ["c"; "GET"; ""]]);
     ("/repo/test.csv", inr [["uid"; "question"];
                             ["a"; "q"]; ["b"; "q"]; ["c"; "q"]])].

Definition scenario_A : World :=
  table_world
    [("sub.csv", inr [["uid"; "type"; "request"];
                      ["1"; "GET"; "/a"]; [" 2"; "POST "; "/b"]]);
     ("/repo/test.csv",
      inr [["uid"; "question"]; ["1"; "q"]; ["2"; "q"]; ["3"; "q"]])].

Definition scenario_B : World :=
  table_world
    [("sub.csv", inr [["uid"; "type"; "request"]; ["u1"; "GET"; "/api/x"]]);
     ("/repo/test.csv", inr [["uid"; "question"]; ["u1"; "q"]])].

Definition blank_reference_row : World :=
  table_world
    [("sub.csv", inr [["uid"; "type"; "request"]; ["u1"; "GET"; "/api/x"]]);
     ("/repo/test.csv", inr [["uid"; "question"]; ["u1"; "q"]; []])].

Definition scenario_C : World :=
  table_world
    [("sub.csv", inr [["uid"; "type"; "request"]; ["u1"; "FETCH"; "/api/x"]]);
     ("/repo/test.csv", inr [["uid"; "question"]; ["u1"; "q"]])].

Definition scenario_D : World :=
  table_world
    [("sub.csv", inr [["uid"; "type"; "request"]; ["u1"; "GET"; "api/x"]]);
     ("/repo/test.csv", inr [["uid"; "question"]; ["u1"; "q"]])].

Definition seven_missing : World :=
  table_world
    [("sub.csv", inr [["uid"; "type"; "request"]; ["x"; "GET"; "/"]]);
     ("/repo/test.csv",
      inr [["uid"]; ["u7"]; ["u10"]; ["u3"]; ["u1"]; ["u5"]; ["u2"]; ["u4"];
           ["u3"]])].

Definition validator (w : World) : SubmissionValidator :=
  __init__ w "test.csv" (Some "sub.csv").

(** ** The other entries of the report and their kinds *)

Definition empty_values_failure (i : nat) : CheckResult :=
  ("Проверка пустых значений (строка " +:+ pretty i +:+ ")", false,
   Some ("Строка " +:+ pretty i +:+ ": обнаружены пустые значения")).

Definition method_failure (self : SubmissionValidator) (i : nat)
    (method : string) : CheckResult :=
  ("Проверка валидности HTTP метода (строка " +:+ pretty i +:+ ")", false,
   Some ("Строка " +:+ pretty i +:+ ": некорректный HTTP метод '"
         +:+ method +:+ "'. Допустимые значения: "
         +:+ String.concat ", " (sorted (elements (valid_methods self))))).

Definition path_failure (i : nat) (request : string) : CheckResult :=
  ("Проверка валидности API пути (строка " +:+ pretty i +:+ ")", false,
   Some ("Строка " +:+ pretty i +:+ ": некорректный путь запроса '"
         +:+ request +:+ "'. Путь должен начинаться с '/'")).

Definition is_empty_values_check (r : CheckResult) : bool :=
  String.prefix "Проверка пустых значений" (name r).

Definition is_method_check (r : CheckResult) : bool :=
  String.prefix "Проверка валидности HTTP метода" (name r).

Definition is_path_check (r : CheckResult) : bool :=
  String.prefix "Проверка валидности API пути" (name r).

(** The checks that end the run when they fail: the two existence checks,
    the structure check and the file-processing check. *)
Definition is_gate_check (r : CheckResult) : bool :=
  bool_decide (name r ∈ ["Проверка наличия submission файла";
                         "Проверка наличия test файла";
                         "Проверка структуры файла";
                         "Проверка обработки файлов"]).

(** A data row of three non-empty cells with a valid method and a path that
    starts with a slash. *)
Definition accepted_row (self : SubmissionValidator) (row : list string)
    : Prop :=
  ∃ uid method request,
    row = [uid; method; request] ∧
    uid ≠ "" ∧ method ≠ "" ∧ request ≠ "" ∧
    method ∈ valid_methods self ∧
    String.prefix "/" request = true.

(** No whitespace sequence is a prefix of [s]; none is a suffix of [s]. *)
Definition no_leading_whitespace (s : string) : Prop :=
  drop_first_of whitespace s = None.

Definition no_trailing_whitespace (s : string) : Prop :=
  drop_first_of (map String.rev whitespace) (String.rev s) = None.

(** [s] is a concatenation of whitespace sequences. *)
Definition whitespace_run (s : string) : Prop :=
  ∃ run, Forall (λ p, p ∈ whitespace) run ∧ s = String.concat "" run.

(** ** More example worlds *)

Definition no_test_file : World :=
  table_world
    [("sub.csv", inr [["uid"; "type"; "request"]; ["1"; "GET"; "/a"]])].

Definition empty_submission : World :=
  table_world
    [("sub.csv", inr []);
     ("/repo/test.csv", inr [["uid"; "question"]; ["1"; "q"]])].

Definition invalid_rows : World :=
  table_world
    [("sub.csv", inr [["uid"; "type"; "request"];
                      ["a"; "get"; "x"];
                      [""; "FETCH"; "y"];
                      ["b"; "GET"; "/ok"]]);
     ("/repo/test.csv", inr [["uid"]; ["a"]; ["b"]])].

Definition scenario_A_other_headers : World :=
  table_world
    [("sub.csv", inr [["id"; "method"; "path"];
                      ["1"; "GET"; "/a"]; ["2"; "POST"; "/b"]]);
     ("/repo/test.csv",
      inr [[]; ["3"]; ["2"; "q"; "r"]; ["1"]; ["3"; "again"]])].

Definition scenario_A_reordered : World :=
  table_world
    [("sub.csv", inr [["uid"; "type"; "request"];
                      ["2"; "POST"; "/b"]; ["1"; "GET"; "/a"]]);
     ("/repo/test.csv", inr [["uid"]; ["3"]; ["1"]; ["2"]])].

(** ** Worlds with a row that has an empty cell *)

Definition complete_before_incomplete : World :=
  table_world
    [("sub.csv", inr [["uid"; "type"; "request"];
                      ["a"; "GET"; "/x"]; ["a"; ""; "/y"]; ["a"; "GET"; "/z"]]);
     ("/repo/test.csv", inr [["uid"]; ["a"]])].

Definition six_missing : World :=
  table_world
    [("sub.csv", inr [["uid"; "type"; "request"]; ["z"; ""; "/x"]]);
     ("/repo/test.csv",
      inr [["uid"]; ["a"]; ["b"]; ["c"]; ["d"]; ["e"]; ["z"]])].

Definition complete_after_incomplete : World :=
  table_world
    [("sub.csv", inr [["uid"; "type"; "request"];
                      ["u"; ""; "/x"]; ["u"; "GET"; "/x"]]);
     ("/repo/test.csv", inr [["uid"]; ["u"]])].

Definition incomplete_twice : World :=
  table_world
    [("sub.csv", inr [["uid"; "type"; "request"];
                      ["a"; "GET"; "/x"]; ["c"; ""; "/y"]; ["c"; "GET"; ""]]);
     ("/repo/test.csv", inr [["uid"]; ["a"]; ["c"]])].

(** The coverage check of a run over the data rows [rows] and the reference
    cells [cells] names [uid]: its failing result is in the report and [uid]
    is one of the uids its detail lists. *)
Definition named_missing (self : SubmissionValidator)
    (rows : list (list string)) (cells : list string) (uid : string)
    (results : list CheckResult) : Prop :=
  ("Проверка наличия всех uid из test.csv", false,
   Some ("Отсутствуют записи для uid: "
         +:+ uid_listing (list_to_set cells ∖ collected_uids self rows)))
  ∈ results ∧
  uid ∈ take 5 (sorted (elements
                  (list_to_set cells ∖ collected_uids self rows : gset string))).

(** What is said of data row [k], a row with an empty cell whose first cell
    is [uid], without a condition on the other rows: no later row with the
    first cell [uid] is flagged as a duplicate, and when [uid] is a
    reference uid the coverage check names it. *)
Definition incomplete_row_consequences (w : World)
    (self : SubmissionValidator) (rows : list (list string))
    (cells : list string) (k : nat) (uid : string) : Prop :=
  ∃ results,
    run_all_validations w self = Returned results ∧
    (∀ j row',
       k < j → rows !! j = Some row' → head row' = Some uid →
       ∀ x, uniqueness_failure (j + 2) x ∉ results) ∧
    (uid ∈ cells → named_missing self rows cells uid results).

(** ** The shape of the report *)

Lemma check_row_app self i row results uids :
  check_row self i row results uids
  = (results ++ (check_row self i row [] uids).1,
     (check_row self i row [] uids).2).
Proof.
  unfold check_row.
  repeat case_match; cbn [fst snd negb]; rewrite ?app_nil_l, ?app_nil_r, <- ?app_assoc;
    reflexivity.
Qed.

Lemma row_loop_app self rows : ∀ i results uids,
  row_loop self i rows results uids
  = (results ++ (row_loop self i rows [] uids).1,
     (row_loop self i rows [] uids).2).
Proof.
  induction rows as [|row rows IH]; intros i results uids; cbn [row_loop].
  - by rewrite app_nil_r.
  - rewrite (check_row_app self i row results).
    rewrite (check_row_app self i row []).
    destruct (check_row self i row [] uids) as [rs us]; cbn [fst snd].
    rewrite (IH (S i) (results ++ rs)), (IH (S i) ([] ++ rs)).
    cbn [fst snd]. by rewrite app_nil_l, app_assoc.
Qed.

Lemma forallb_width rows :
  Forall (λ row : list string, length row = 3) rows →
  forallb (λ row, bool_decide (length row = 3)) rows = true.
Proof.
  induction 1 as [|row rows Hrow _ IH]; cbn [forallb]; [done|].
  by rewrite bool_decide_eq_true_2, IH.
Qed.

Lemma forallb_wrong_width rows :
  Exists (λ row : list string, length row ≠ 3) rows →
  forallb (λ row, bool_decide (length row = 3)) rows = false.
Proof.
  induction 1 as [row rows Hrow|row rows _ IH]; cbn [forallb].
  - by rewrite bool_decide_eq_false_2.
  - rewrite IH. apply andb_false_r.
Qed.

Lemma run_reaching w self submission_data test_data cells :
  reaches_row_loop w self submission_data test_data cells →
  run_all_validations w self
  = Returned
      ([submission_found; test_found; structure_ok]
       ++ row_results self (drop 1 submission_data)
       ++ [row_count_result (length (drop 1 submission_data))
             (list_to_set cells);
           missing_result (list_to_set cells)
             (collected_uids self (drop 1 submission_data));
           extra_result (list_to_set cells)
             (collected_uids self (drop 1 submission_data))]).
Proof.
  intros (sp & Hsp & Hes & Het & Hrs & Hrt & Hne & Hw & Hc).
  unfold run_all_validations, try_block.
  rewrite Hsp, Hes, Het, Hrs, Hrt; cbn [negb].
  rewrite bool_decide_eq_false_2 by (by destruct submission_data).
  rewrite forallb_width by done; cbn [negb].
  rewrite Hc.
  rewrite row_loop_app.
  unfold row_results, collected_uids, row_count_result, missing_result,
    extra_result, uid_listing.
  destruct (row_loop self 2 (drop 1 submission_data) [] ∅) as [rs us];
    cbn [fst snd].
  f_equal.
  repeat case_match; cbn [app]; rewrite <- ?app_assoc; reflexivity.
Qed.

(** ** Strings *)

Lemma append_length s t :
  String.length (s +:+ t) = String.length s + String.length t.
Proof. induction s as [|a s IH]; simpl; [done|]. by f_equal. Qed.

Lemma append_inj_r t s1 s2 : s1 +:+ t = s2 +:+ t → s1 = s2.
Proof.
  revert s2; induction s1 as [|a s1 IH]; intros [|b s2] H.
  - done.
  - apply (f_equal String.length) in H.
    rewrite !append_length in H. cbn [String.length] in H. lia.
  - apply (f_equal String.length) in H.
    rewrite !append_length in H. cbn [String.length] in H. lia.
  - change (String a (s1 +:+ t) = String b (s2 +:+ t)) in H.
    injection H as -> H. f_equal. by apply IH.
Qed.

Lemma uniqueness_failure_inj i j u v :
  uniqueness_failure i u = uniqueness_failure j v → i = j ∧ u = v.
Proof.
  unfold uniqueness_failure. intros H.
  injection H as Hname Hdetail.
  apply String.app_inj, append_inj_r in Hname.
  apply (inj pretty) in Hname as ->.
  split; [done|].
  do 3 apply String.app_inj in Hdetail.
  by apply append_inj_r in Hdetail.
Qed.

(** ** The rows loop *)

Lemma check_row_uids self i row results uids :
  (check_row self i row results uids).2
  = match complete_uid row with
    | Some u => uids ∪ {[ u ]}
    | None => uids
    end.
Proof. unfold check_row, complete_uid. by repeat case_match. Qed.

Lemma check_row_uniqueness self i row uids :
  List.filter is_uniqueness_check (check_row self i row [] uids).1
  = match complete_uid row with
    | Some u => if bool_decide (u ∈ uids) then [uniqueness_failure i u] else []
    | None => []
    end.
Proof.
  unfold check_row, complete_uid.
  repeat case_match; simplify_eq; reflexivity.
Qed.

Lemma row_loop_uids self rows : ∀ i results uids,
  (row_loop self i rows results uids).2
  = uids ∪ list_to_set (omap complete_uid rows).
Proof.
  induction rows as [|row rows IH]; intros i results uids; cbn [row_loop].
  - cbn. set_solver.
  - pose proof (check_row_uids self i row results uids) as Hu.
    destruct (check_row self i row results uids) as [rs us]; cbn [snd] in Hu.
    rewrite IH, Hu. cbn [omap list_omap].
    destruct (complete_uid row); cbn [list_to_set foldr]; set_solver.
Qed.

Lemma row_loop_uniqueness self rows : ∀ i uids,
  List.filter is_uniqueness_check (row_loop self i rows [] uids).1
  = duplicates i rows uids.
Proof.
  induction rows as [|row rows IH]; intros i uids;
    cbn [row_loop duplicates]; [done|].
  pose proof (check_row_uids self i row [] uids) as Hu.
  pose proof (check_row_uniqueness self i row uids) as Hf.
  destruct (check_row self i row [] uids) as [rs us]; cbn [fst snd] in Hu, Hf.
  rewrite row_loop_app; cbn [fst].
  rewrite List.filter_app, IH, Hf, Hu.
  destruct (complete_uid row); [done|]. by rewrite app_nil_l.
Qed.

Lemma occurs_nil k u : ¬ occurs [] k u.
Proof. intros (row & H & _). by rewrite lookup_nil in H. Qed.

Lemma occurs_head row rows u :
  occurs (row :: rows) 0 u ↔ complete_uid row = Some u.
Proof.
  split.
  - intros (row' & [= <-] & H). done.
  - intros H. by exists row.
Qed.

Lemma elem_of_duplicates rows : ∀ i seen x,
  x ∈ duplicates i rows seen ↔
  ∃ k u, x = uniqueness_failure (i + k) u ∧ occurs rows k u ∧
         (u ∈ seen ∨ ∃ j, j < k ∧ occurs rows j u).
Proof.
  induction rows as [|row rows IH]; intros i seen x; cbn [duplicates].
  { split; [by intros ?%elem_of_nil|].
    intros (k & u & _ & H & _). by apply occurs_nil in H. }
  assert (∀ seen',
    (∀ u, u ∈ seen' ↔ u ∈ seen ∨ complete_uid row = Some u) →
    x ∈ duplicates (S i) rows seen' ↔
    ∃ k u, x = uniqueness_failure (i + S k) u ∧ occurs rows k u ∧
           (u ∈ seen ∨ ∃ j, j < S k ∧ occurs (row :: rows) j u)) as Hrest.
  { intros seen' Hseen. rewrite IH. 
    split; intros (k & u & -> & Hk & Hprev); exists k, u;
      rewrite <- Nat.add_succ_comm; (split; [done|]); (split; [done|]).
    - destruct Hprev as [[?|Hrow]%Hseen|(j & Hj & Hocc)]; [by left|..].
      + right. exists 0. split; [lia|]. by apply occurs_head.
      + right. exists (S j). split; [lia|done].
    - destruct Hprev as [?|(j & Hj & Hocc)].
      + left. apply Hseen. by left.
      + destruct j as [|j].
        * left. apply Hseen. right. by apply occurs_head in Hocc.
        * right. exists j. split; [lia|done]. }
  assert ((∃ k u, x = uniqueness_failure (i + k) u ∧
                  occurs (row :: rows) k u ∧
                  (u ∈ seen ∨ ∃ j, j < k ∧ occurs (row :: rows) j u)) ↔
          (∃ u, x = uniqueness_failure i u ∧ complete_uid row = Some u ∧
                u ∈ seen) ∨
          (∃ k u, x = uniqueness_failure (i + S k) u ∧ occurs rows k u ∧
                  (u ∈ seen ∨ ∃ j, j < S k ∧ occurs (row :: rows) j u)))
    as ->.
  { split.
    - intros ([|k] & u & -> & Hk & Hprev).
      + left. exists u. rewrite Nat.add_0_r. apply occurs_head in Hk.
        destruct Hprev as [?|(j & ? & _)]; [done|lia].
      + right. by exists k, u.
    - intros [(u & -> & Hrow & Hin)|(k & u & -> & Hk & Hprev)].
      + exists 0, u. rewrite Nat.add_0_r. split; [done|].
        split; [by apply occurs_head|by left].
      + by exists (S k), u. }
  destruct (complete_uid row) as [u0|] eqn:Hrow.
  - rewrite elem_of_app, (Hrest (seen ∪ {[ u0 ]})) by set_solver.
    apply or_iff_compat_r.
    case_bool_decide as Hin.
    + rewrite list_elem_of_singleton. split.
      * intros ->. by exists u0.
      * by intros (u & -> & [= ->] & _).
    + split; [by intros ?%elem_of_nil|].
      by intros (u & -> & [= ->] & ?).
  - rewrite (Hrest seen) by naive_solver.
    split; [by right|]. by intros [(u & _ & ? & _)|?].
Qed.

Lemma NoDup_duplicates rows : ∀ i seen, NoDup (duplicates i rows seen).
Proof.
  induction rows as [|row rows IH]; intros i seen; cbn [duplicates].
  { constructor. }
  destruct (complete_uid row) as [u0|]; [|apply IH].
  apply NoDup_app. split; [|split; [|apply IH]].
  - case_bool_decide; [apply NoDup_singleton|constructor].
  - intros x Hx (k & u & -> & _)%elem_of_duplicates.
    case_bool_decide; [|by apply elem_of_nil in Hx].
    apply list_elem_of_singleton, uniqueness_failure_inj in Hx as [? _]. lia.
Qed.

Lemma elem_of_List_filter {A} (f : A → bool) l x :
  x ∈ List.filter f l ↔ x ∈ l ∧ f x = true.
Proof. rewrite !list_elem_of_In. apply filter_In. Qed.

Lemma run_uniqueness w self submission_data test_data cells :
  reaches_row_loop w self submission_data test_data cells →
  ∃ results,
    run_all_validations w self = Returned results ∧
    List.filter is_uniqueness_check results
    = duplicates 2 (drop 1 submission_data) ∅.
Proof.
  intros Hreach. rewrite (run_reaching _ _ _ _ _ Hreach).
  eexists; split; [reflexivity|].
  rewrite !List.filter_app.
  unfold row_results. rewrite row_loop_uniqueness.
  unfold row_count_result, missing_result, extra_result.
  repeat case_match; cbn; by rewrite app_nil_r.
Qed.

(** ** Properties of the report *)

(** C1: a validator constructed without a submission path has no path to
    test: [run_all_validations] evaluates [None.exists()] before its [try]
    block and ends with an [AttributeError] that reaches the caller, instead
    of returning a report that begins with a failing existence check. *)
Theorem omitted_submission_path_raises (w : World) (test_path_arg : string) :
  run_all_validations w (__init__ w test_path_arg None)
  = Raised (AttributeError "'NoneType' object has no attribute 'exists'").
Proof. reflexivity. Qed.

(** C2: when the submission file is absent, the report has exactly one entry:
    the failing submission-existence check, whose detail names the missing
    path. *)
Theorem absent_submission_single_failure (w : World)
    (self : SubmissionValidator) (sp : Path) :
  submission_path self = Some sp →
  path_exists w sp = false →
  run_all_validations w self
  = Returned
      [("Проверка наличия submission файла", false,
        Some ("Файл " +:+ sp +:+ " не найден"))].
Proof.
  intros Hsp Hex. unfold run_all_validations. by rewrite Hsp, Hex.
Qed.

Lemma absent_submission_single_failure_witness :
  run_all_validations no_files (validator no_files)
  = Returned
      [("Проверка наличия submission файла", false,
        Some "Файл sub.csv не найден")].
Proof.
  apply (absent_submission_single_failure no_files (validator no_files)
           "sub.csv"); reflexivity.
Defined.

(** C3: when the parsed submission table, header included, has a row whose
    number of cells is not 3, the report ends right after one failing
    structure check whose detail names the shape [uid;type;request]: after
    the two passing existence checks it holds nothing else, no per-row
    result and no aggregate result. *)
Theorem wrong_width_stops_the_run (w : World) (self : SubmissionValidator)
    (sp : Path) (submission_data test_data : list (list string)) :
  submission_path self = Some sp →
  path_exists w sp = true →
  path_exists w (test_path self) = true →
  _read_csv w sp = inr submission_data →
  _read_csv w (test_path self) = inr test_data →
  Exists (λ row, length row ≠ 3) submission_data →
  run_all_validations w self
  = Returned
      [submission_found; test_found;
       ("Проверка структуры файла", false,
        Some "Некорректная структура файла: ожидается 3 колонки (uid;type;request)")].
Proof.
  intros Hsp Hes Het Hrs Hrt Hbad.
  unfold run_all_validations, try_block.
  rewrite Hsp, Hes, Het, Hrs, Hrt; cbn [negb].
  rewrite bool_decide_eq_false_2
    by (intros Hlen; destruct submission_data; [by apply Exists_nil in Hbad|done]).
  by rewrite forallb_wrong_width.
Qed.

Lemma wrong_width_stops_the_run_witness :
  run_all_validations narrow_row (validator narrow_row)
  = Returned
      [submission_found; test_found;
       ("Проверка структуры файла", false,
        Some "Некорректная структура файла: ожидается 3 колонки (uid;type;request)")].
Proof.
  apply (wrong_width_stops_the_run narrow_row (validator narrow_row) "sub.csv"
           [["uid"; "type"; "request"]; ["1"; "GET"]]
           [["uid"; "question"]; ["1"; "q"]]);
    try reflexivity.
  apply Exists_cons_tl, Exists_cons_hd. simpl. lia.
Defined.

(** C4: in a run that reaches the row loop, the failing uniqueness results
    are exactly these: one for each row of three non-empty cells whose uid
    is also the uid of an earlier such row, tagged with the number of that
    later row (the header is row 1, so data row [k] is row [k + 2]).  The
    first occurrence of a uid is never tagged; the second, the third and
    every further one are. *)
Theorem later_occurrences_flagged (w : World) (self : SubmissionValidator)
    (submission_data test_data : list (list string)) (cells : list string) :
  reaches_row_loop w self submission_data test_data cells →
  ∃ results,
    run_all_validations w self = Returned results ∧
    NoDup (List.filter is_uniqueness_check results) ∧
    (∀ r, r ∈ results → is_uniqueness_check r = true →
          ∃ i uid, r = uniqueness_failure i uid) ∧
    ∀ i uid,
      uniqueness_failure i uid ∈ results ↔
      ∃ k, i = k + 2 ∧ occurs (drop 1 submission_data) k uid ∧
           ∃ j, j < k ∧ occurs (drop 1 submission_data) j uid.
Proof.
  intros (results & Hrun & Hfilter)%run_uniqueness.
  exists results. split; [done|]. split; [|split].
  - rewrite Hfilter. apply NoDup_duplicates.
  - intros r Hr Hu.
    assert (r ∈ List.filter is_uniqueness_check results) as Hin
      by by apply elem_of_List_filter.
    rewrite Hfilter in Hin.
    apply elem_of_duplicates in Hin as (k & u & -> & _). eauto.
  - intros i uid.
    trans (uniqueness_failure i uid ∈ List.filter is_uniqueness_check results).
    { rewrite elem_of_List_filter. naive_solver. }
    rewrite Hfilter, elem_of_duplicates. split.
    + intros (k & u & [-> ->]%uniqueness_failure_inj & Hk & [[]%elem_of_empty|Hprev]).
      exists k. split; [lia|done].
    + intros (k & -> & Hk & Hprev). exists k, uid.
      split; [f_equal; lia|]. split; [done|by right].
Qed.

Lemma repeated_uids_reach_row_loop :
  reaches_row_loop repeated_uids (validator repeated_uids)
    [["uid"; "type"; "request"]; ["a"; "GET"; "/x"]; ["b"; ""; "/y"];
     ["a"; "POST"; "/z"]; ["b"; "GET"; "/y"]; ["a"; "PUT"; "/q"];
     ["c"; "GET"; ""]]
    [["uid"; "question"]; ["a"; "q"]; ["b"; "q"]; ["c"; "q"]]
    ["a"; "b"; "c"].
Proof.
  exists "sub.csv". repeat split; try reflexivity; [done|].
  repeat constructor.
Defined.

Lemma later_occurrences_flagged_witness :
  ∃ results,
    run_all_validations repeated_uids (validator repeated_uids)
    = Returned results ∧
    NoDup (List.filter is_uniqueness_check results) ∧
    (∀ r, r ∈ results → is_uniqueness_check r = true →
          ∃ i uid, r = uniqueness_failure i uid) ∧
    ∀ i uid,
      uniqueness_failure i uid ∈ results ↔
      ∃ k, i = k + 2 ∧
           occurs [["a"; "GET"; "/x"]; ["b"; ""; "/y"]; ["a"; "POST"; "/z"];
                   ["b"; "GET"; "/y"]; ["a"; "PUT"; "/q"]; ["c"; "GET"; ""]]
             k uid ∧
           ∃ j, j < k ∧
             occurs [["a"; "GET"; "/x"]; ["b"; ""; "/y"]; ["a"; "POST"; "/z"];
                     ["b"; "GET"; "/y"]; ["a"; "PUT"; "/q"]; ["c"; "GET"; ""]]
               j uid.
Proof.
  exact (later_occurrences_flagged _ _ _ _ _ repeated_uids_reach_row_loop).
Defined.

Example repeated_uids_report :
  run_all_validations repeated_uids (validator repeated_uids)
  = Returned
      [submission_found; test_found; structure_ok;
       ("Проверка пустых значений (строка 3)", false,
        Some "Строка 3: обнаружены пустые значения");
       uniqueness_failure 4 "a";
       uniqueness_failure 6 "a";
       ("Проверка пустых значений (строка 7)", false,
        Some "Строка 7: обнаружены пустые значения");
       ("Проверка соответствия количества строк", false,
        Some "Некорректное количество строк: ожидается 3, найдено 6");
       ("Проверка наличия всех uid из test.csv", false,
        Some "Отсутствуют записи для uid: c");
       ("Проверка отсутствия лишних uid", true, None)].
Proof. vm_compute. reflexivity. Qed.

Example scenario_C_report :
  run_all_validations scenario_C (validator scenario_C)
  = Returned
      [submission_found; test_found; structure_ok;
       ("Проверка валидности HTTP метода (строка 2)", false,
        Some "Строка 2: некорректный HTTP метод 'FETCH'. Допустимые значения: DELETE, GET, HEAD, OPTIONS, PATCH, POST, PUT");
       ("Проверка соответствия количества строк", true, None);
       ("Проверка наличия всех uid из test.csv", true, None);
       ("Проверка отсутствия лишних uid", true, None)].
Proof. vm_compute. reflexivity. Qed.

Example scenario_D_report :
  run_all_validations scenario_D (validator scenario_D)
  = Returned
      [submission_found; test_found; structure_ok;
       ("Проверка валидности API пути (строка 2)", false,
        Some "Строка 2: некорректный путь запроса 'api/x'. Путь должен начинаться с '/'");
       ("Проверка соответствия количества строк", true, None);
       ("Проверка наличия всех uid из test.csv", true, None);
       ("Проверка отсутствия лишних uid", true, None)].
Proof. vm_compute. reflexivity. Qed.

Example seven_missing_report :
  run_all_validations seven_missing (validator seven_missing)
  = Returned
      [submission_found; test_found; structure_ok;
       ("Проверка соответствия количества строк", false,
        Some "Некорректное количество строк: ожидается 7, найдено 1");
       ("Проверка наличия всех uid из test.csv", false,
        Some "Отсутствуют записи для uid: u1, u10, u2, u3, u4...");
       ("Проверка отсутствия лишних uid", false,
        Some "Обнаружены лишние uid, отсутствующие в test.csv: x")].
Proof. vm_compute. reflexivity. Qed.

(** C5: when reading the submission file fails, or the submission file is
    read and reading the test file fails, the exception of [_read_csv] is
    caught: the report keeps the two passing existence checks and ends with
    one failing file-processing check whose detail carries the message of
    the underlying error [e]; the call returns it. *)
Theorem read_failure_is_reported (w : World) (self : SubmissionValidator)
    (sp p : Path) (e : string) :
  submission_path self = Some sp →
  path_exists w sp = true →
  path_exists w (test_path self) = true →
  (p = sp ∧ csv_reader w sp = inl e) ∨
  (p = test_path self ∧ (∃ rows, csv_reader w sp = inr rows) ∧
   csv_reader w (test_path self) = inl e) →
  _read_csv w p = inl (Exception (read_error p e)) ∧
  run_all_validations w self
  = Returned
      [submission_found; test_found;
       ("Проверка обработки файлов", false,
        Some ("Ошибка при обработке файлов: "
              +:+ "Не удалось прочитать файл " +:+ p +:+ ": " +:+ e))].
Proof.
  intros Hsp Hes Het Hfail.
  unfold run_all_validations, try_block, _read_csv.
  rewrite Hsp, Hes, Het; cbn [negb].
  destruct Hfail as [[-> He]|(-> & [rows Hrows] & He)].
  - by rewrite He.
  - by rewrite Hrows, He.
Qed.

Lemma read_failure_is_reported_witness :
  run_all_validations unreadable_test (validator unreadable_test)
  = Returned
      [submission_found; test_found;
       ("Проверка обработки файлов", false,
        Some "Ошибка при обработке файлов: Не удалось прочитать файл /repo/test.csv: 'utf-8' codec can't decode byte 0xff in position 0: invalid start byte")].
Proof.
  refine (proj2 (read_failure_is_reported unreadable_test
                   (validator unreadable_test) "sub.csv" "/repo/test.csv"
                   _ eq_refl eq_refl eq_refl _)).
  right. split; [reflexivity|]. split; [eexists; reflexivity|reflexivity].
Defined.

Lemma uid_listing_sorted (diff : gset string) :
  ∃ listed,
    Sorted String.le listed ∧ listed ≡ₚ elements diff ∧
    uid_listing diff
    = String.concat ", " (take 5 listed)
      +:+ (if bool_decide (5 < size diff) then "..." else "").
Proof.
  exists (sorted (elements diff)). split; [|split].
  - apply (Sorted_merge_sort String.le).
  - apply merge_sort_Permutation.
  - reflexivity.
Qed.

Lemma missing_result_reports (test_uids submission_uids : gset string) :
  reports_difference "Проверка наличия всех uid из test.csv"
    "Отсутствуют записи для uid: " (test_uids ∖ submission_uids)
    (missing_result test_uids submission_uids).
Proof.
  unfold reports_difference, missing_result.
  case_bool_decide as Hdiff; cbn [negb name passed detail fst snd].
  - repeat split; try done.
  - repeat split; try done.
    intros _. destruct (uid_listing_sorted (test_uids ∖ submission_uids))
      as (listed & Hsorted & Hperm & ->). by exists listed.
Qed.

Lemma extra_result_reports (test_uids submission_uids : gset string) :
  reports_difference "Проверка отсутствия лишних uid"
    "Обнаружены лишние uid, отсутствующие в test.csv: "
    (submission_uids ∖ test_uids)
    (extra_result test_uids submission_uids).
Proof.
  unfold reports_difference, extra_result.
  case_bool_decide as Hdiff; cbn [negb name passed detail fst snd].
  - repeat split; try done.
  - repeat split; try done.
    intros _. destruct (uid_listing_sorted (submission_uids ∖ test_uids))
      as (listed & Hsorted & Hperm & ->). by exists listed.
Qed.

Lemma first_cells_heads rows cells :
  first_cells rows = inr cells →
  Forall2 (λ row uid, head row = Some uid) rows cells.
Proof.
  revert cells; induction rows as [|row rows IH]; intros cells;
    cbn [first_cells].
  - intros [= <-]. constructor.
  - destruct row as [|c row]; [done|].
    destruct (first_cells rows) as [e|cs]; [done|].
    intros [= <-]. constructor; [done|by apply IH].
Qed.

Lemma size_list_to_set_dups (cells : list string) :
  size (list_to_set cells : gset string) = length (remove_dups cells).
Proof.
  rewrite <- (size_list_to_set (C:=gset string) (remove_dups cells))
    by apply NoDup_remove_dups.
  f_equal. apply set_eq. intros u.
  by rewrite !elem_of_list_to_set, elem_of_remove_dups.
Qed.

(** C7: in a run that reaches the aggregate checks, the report ends with the
    row-count, coverage and extra-uid checks.  The coverage check is over
    the reference uids that are not among the collected submission uids, the
    extra-uid check over the collected uids that are not reference uids;
    each passes exactly when its difference set is empty, and otherwise
    lists the first five uids of the set in lexicographic order, followed by
    ["..."] exactly when the set has more than five. *)
Theorem difference_checks_listing (w : World) (self : SubmissionValidator)
    (submission_data test_data : list (list string)) (cells : list string) :
  reaches_row_loop w self submission_data test_data cells →
  ∃ earlier row_count coverage extras,
    run_all_validations w self
    = Returned (earlier ++ [row_count; coverage; extras]) ∧
    reports_difference "Проверка наличия всех uid из test.csv"
      "Отсутствуют записи для uid: "
      (list_to_set cells ∖ collected_uids self (drop 1 submission_data))
      coverage ∧
    reports_difference "Проверка отсутствия лишних uid"
      "Обнаружены лишние uid, отсутствующие в test.csv: "
      (collected_uids self (drop 1 submission_data) ∖ list_to_set cells)
      extras.
Proof.
  intros Hreach. rewrite (run_reaching _ _ _ _ _ Hreach).
  eexists _, _, _, _. split; [by rewrite app_assoc|].
  split; [apply missing_result_reports|apply extra_result_reports].
Qed.

Lemma scenario_A_reaches_row_loop :
  reaches_row_loop scenario_A (validator scenario_A)
    [["uid"; "type"; "request"]; ["1"; "GET"; "/a"]; ["2"; "POST"; "/b"]]
    [["uid"; "question"]; ["1"; "q"]; ["2"; "q"]; ["3"; "q"]]
    ["1"; "2"; "3"].
Proof.
  exists "sub.csv". repeat split; try reflexivity; [done|].
  repeat constructor.
Defined.

Lemma difference_checks_listing_witness :
  ∃ earlier row_count coverage extras,
    run_all_validations scenario_A (validator scenario_A)
    = Returned (earlier ++ [row_count; coverage; extras]) ∧
    reports_difference "Проверка наличия всех uid из test.csv"
      "Отсутствуют записи для uid: "
      (list_to_set ["1"; "2"; "3"]
       ∖ collected_uids (validator scenario_A)
           [["1"; "GET"; "/a"]; ["2"; "POST"; "/b"]])
      coverage ∧
    reports_difference "Проверка отсутствия лишних uid"
      "Обнаружены лишние uid, отсутствующие в test.csv: "
      (collected_uids (validator scenario_A)
         [["1"; "GET"; "/a"]; ["2"; "POST"; "/b"]]
       ∖ list_to_set ["1"; "2"; "3"])
      extras.
Proof.
  exact (difference_checks_listing _ _ _ _ _ scenario_A_reaches_row_loop).
Defined.

(** C8: in a run that reaches the aggregate checks, the row-count check
    passes exactly when the number of submission data rows (the rows after
    the header) equals the number of distinct first cells of the reference
    data rows; when it fails, its detail gives the number of distinct
    reference uids as expected and the number of submission data rows as
    found. *)
Theorem row_count_check (w : World) (self : SubmissionValidator)
    (submission_data test_data : list (list string)) (cells : list string) :
  reaches_row_loop w self submission_data test_data cells →
  ∃ earlier row_count coverage extras,
    run_all_validations w self
    = Returned (earlier ++ [row_count; coverage; extras]) ∧
    Forall2 (λ row uid, head row = Some uid) (drop 1 test_data) cells ∧
    let expected := length (remove_dups cells) in
    let found := length (drop 1 submission_data) in
    name row_count = "Проверка соответствия количества строк" ∧
    (passed row_count = true ↔ found = expected) ∧
    (found = expected → detail row_count = None) ∧
    (found ≠ expected →
     detail row_count
     = Some ("Некорректное количество строк: ожидается "
             +:+ pretty expected +:+ ", найдено " +:+ pretty found)).
Proof.
  intros Hreach. rewrite (run_reaching _ _ _ _ _ Hreach).
  eexists _, _, _, _. split; [by rewrite app_assoc|].
  split.
  { destruct Hreach as (sp & _ & _ & _ & _ & _ & _ & _ & Hc).
    by apply first_cells_heads. }
  cbn zeta. unfold row_count_result. rewrite size_list_to_set_dups.
  case_bool_decide as Hcount; cbn [negb name passed detail fst snd];
    repeat split; done.
Qed.

Lemma row_count_check_witness :
  ∃ earlier row_count coverage extras,
    run_all_validations scenario_A (validator scenario_A)
    = Returned (earlier ++ [row_count; coverage; extras]) ∧
    Forall2 (λ row uid, head row = Some uid)
      [["1"; "q"]; ["2"; "q"]; ["3"; "q"]] ["1"; "2"; "3"] ∧
    name row_count = "Проверка соответствия количества строк" ∧
    (passed row_count = true ↔ 2 = 3) ∧
    (2 = 3 → detail row_count = None) ∧
    (2 ≠ 3 →
     detail row_count
     = Some "Некорректное количество строк: ожидается 3, найдено 2").
Proof.
  exact (row_count_check _ _ _ _ _ scenario_A_reaches_row_loop).
Defined.

(** ** Details and failures *)

Lemma detail_iff_failed_passing title : detail_iff_failed (title, true, None).
Proof.
  unfold detail_iff_failed; cbn. split; [by intros [? ?]|done].
Qed.

Lemma detail_iff_failed_failing title msg :
  detail_iff_failed (title, false, Some msg).
Proof. unfold detail_iff_failed; cbn. split; eauto. Qed.

Ltac details :=
  repeat first
    [ assumption
    | apply Forall_nil_2
    | apply Forall_app_2
    | apply Forall_cons_2
    | apply detail_iff_failed_passing
    | apply detail_iff_failed_failing ].

Lemma check_row_details self i row results uids :
  Forall detail_iff_failed results →
  Forall detail_iff_failed (check_row self i row results uids).1.
Proof.
  intros Hres. unfold check_row.
  repeat case_match; cbn [fst negb]; details.
Qed.

Lemma row_loop_details self rows : ∀ i results uids,
  Forall detail_iff_failed results →
  Forall detail_iff_failed (row_loop self i rows results uids).1.
Proof.
  induction rows as [|row rows IH]; intros i results uids Hres;
    cbn [row_loop]; [done|].
  pose proof (check_row_details self i row results uids Hres) as Hrow.
  destruct (check_row self i row results uids) as [rs us]. by apply IH.
Qed.

Lemma try_block_details w self sp results :
  Forall detail_iff_failed results →
  Forall detail_iff_failed (try_block w self sp results).1.
Proof.
  intros Hres. unfold try_block.
  destruct (_read_csv w sp) as [e|submission_data]; [done|].
  destruct (_read_csv w (test_path self)) as [e|test_data]; [done|].
  case_bool_decide; [cbn [fst]; details|].
  destruct (forallb _ submission_data); cbn [negb fst]; [|details].
  destruct (first_cells (drop 1 test_data)) as [e|cells];
    [cbn [fst]; details|].
  pose proof (row_loop_details self (drop 1 submission_data) 2
                (results ++ [("Проверка структуры файла", true, None)]) ∅)
    as Hloop.
  destruct (row_loop self 2 (drop 1 submission_data) _ ∅) as [rs us].
  cbn [fst] in Hloop. assert (Forall detail_iff_failed rs) by (apply Hloop; details).
  repeat case_match; cbn [fst negb]; details.
Qed.

(** C9: in every report [run_all_validations] returns, the detail of a result
    is present exactly when the result is failing: a passing result has no
    detail, a failing one has a message. *)
Theorem detail_present_iff_failed (w : World) (self : SubmissionValidator)
    (results : list CheckResult) :
  run_all_validations w self = Returned results →
  ∀ r, r ∈ results → (is_Some (detail r) ↔ passed r = false).
Proof.
  intros Hrun. apply Forall_forall. fold detail_iff_failed.
  unfold run_all_validations in Hrun.
  destruct (submission_path self) as [sp|]; [|done].
  destruct (path_exists w sp); cbn [negb] in Hrun;
    [|injection Hrun as <-; details].
  destruct (path_exists w (test_path self)); cbn [negb] in Hrun;
    [|injection Hrun as <-; details].
  pose proof (try_block_details w self sp
    ([] ++ [("Проверка наличия submission файла", true, None)]
        ++ [("Проверка наличия test файла", true, None)])) as Htry.
  destruct (try_block w self sp _) as [rs [e|]]; cbn [fst] in Htry;
    injection Hrun as <-; details; apply Htry; details.
Qed.

Lemma detail_present_iff_failed_witness :
  Forall (λ r, is_Some (detail r) ↔ passed r = false)
    [submission_found; test_found; structure_ok;
     ("Проверка соответствия количества строк", false,
      Some "Некорректное количество строк: ожидается 3, найдено 2");
     ("Проверка наличия всех uid из test.csv", false,
      Some "Отсутствуют записи для uid: 3");
     ("Проверка отсутствия лишних uid", true, None)].
Proof.
  apply Forall_forall.
  apply (detail_present_iff_failed scenario_A (validator scenario_A)).
  vm_compute. reflexivity.
Defined.

(** ** Rows with an empty cell *)

Lemma complete_uid_empty_cell (row : list string) :
  "" ∈ row → complete_uid row = None.
Proof.
  intros Hin. destruct row as [|a [|b [|c [|d row]]]]; try done.
  unfold complete_uid. repeat case_bool_decide; try done.
  exfalso. set_solver.
Qed.

Lemma elem_of_collected_uids self rows u :
  u ∈ collected_uids self rows ↔ ∃ j, occurs rows j u.
Proof.
  unfold collected_uids, occurs. rewrite row_loop_uids.
  rewrite elem_of_union, elem_of_list_to_set, list_elem_of_omap.
  setoid_rewrite list_elem_of_lookup. set_solver.
Qed.

Lemma elem_of_sorted_elements (X : gset string) u :
  (size X ≤ 5)%nat → u ∈ X → u ∈ take 5 (sorted (elements X)).
Proof.
  intros Hsize Hu. rewrite take_ge.
  - unfold sorted. rewrite merge_sort_Permutation. by apply elem_of_elements.
  - unfold sorted. by rewrite merge_sort_Permutation.
Qed.

(** C10, as the code has it: in a run that reaches the row loop, a
    submission data row with an empty cell leaves the set of seen uids as it
    was: the collected uids are those of the other rows, the ones with three
    non-empty cells.  So a later row with the same uid is flagged as a
    duplicate exactly when it has three non-empty cells and a row of three
    non-empty cells before it carries that uid; and a reference uid is among
    the missing uids of the coverage check exactly when no row of three
    non-empty cells carries it, in which case the coverage check fails and
    its detail lists the uid whenever at most five uids are missing (beyond
    five, only the first five in lexicographic order are listed). *)
Theorem incomplete_row_not_collected (w : World) (self : SubmissionValidator)
    (submission_data test_data : list (list string)) (cells : list string)
    (k : nat) (row : list string) (uid : string) :
  reaches_row_loop w self submission_data test_data cells →
  drop 1 submission_data !! k = Some row →
  head row = Some uid →
  "" ∈ row →
  (∀ i results seen, (check_row self i row results seen).2 = seen) ∧
  (∀ u, u ∈ collected_uids self (drop 1 submission_data) ↔
        ∃ j, j ≠ k ∧ occurs (drop 1 submission_data) j u) ∧
  ∃ results,
    run_all_validations w self = Returned results ∧
    (∀ j row',
       k < j → drop 1 submission_data !! j = Some row' →
       head row' = Some uid →
       ∀ x,
         uniqueness_failure (j + 2) x ∈ results ↔
         x = uid ∧ complete_uid row' = Some uid ∧
         ∃ j', j' < j ∧ j' ≠ k ∧ occurs (drop 1 submission_data) j' uid) ∧
    (uid ∈ cells →
     (uid ∈ list_to_set cells ∖ collected_uids self (drop 1 submission_data) ↔
      ∀ j, ¬ occurs (drop 1 submission_data) j uid) ∧
     ((∀ j, ¬ occurs (drop 1 submission_data) j uid) →
      ("Проверка наличия всех uid из test.csv", false,
       Some ("Отсутствуют записи для uid: "
             +:+ uid_listing
                   (list_to_set cells
                    ∖ collected_uids self (drop 1 submission_data))))
      ∈ results ∧
      ((size (list_to_set cells
              ∖ collected_uids self (drop 1 submission_data) : gset string)
        ≤ 5)%nat →
       uid ∈ take 5 (sorted (elements
                       (list_to_set cells
                        ∖ collected_uids self (drop 1 submission_data)
                        : gset string)))))).
Proof.
  intros Hreach Hrow Hhead Hempty.
  pose proof (complete_uid_empty_cell row Hempty) as Hnone.
  assert (∀ u, ¬ occurs (drop 1 submission_data) k u) as Hnot.
  { intros u (row' & Hrow' & Hu). congruence. }
  split; [|split].
  - intros i results seen. by rewrite check_row_uids, Hnone.
  - intros u. rewrite elem_of_collected_uids.
    split; [|naive_solver].
    intros (j & Hj). exists j. split; [|done]. intros ->. by apply (Hnot u).
  - destruct (run_uniqueness _ _ _ _ _ Hreach) as (results & Hrun & Hfilter).
    exists results. split; [done|]. split.
    + intros j row' Hkj Hj Hhead' x.
      trans (uniqueness_failure (j + 2) x
             ∈ List.filter is_uniqueness_check results).
      { rewrite elem_of_List_filter. naive_solver. }
      rewrite Hfilter, elem_of_duplicates. split.
      * intros (j0 & u & [Hj0 <-]%uniqueness_failure_inj & Hocc & Hprev).
        assert (j0 = j) as -> by lia.
        destruct Hprev as [[]%elem_of_empty|(j' & Hj' & Hprev)].
        destruct Hocc as (row'' & Hrow'' & Hx).
        assert (row'' = row') as -> by congruence.
        assert (x = uid) as ->.
        { unfold complete_uid in Hx. repeat case_match; simplify_eq/=; done. }
        split; [done|]. split; [done|].
        exists j'. split; [done|]. split; [|done].
        intros ->. by apply (Hnot uid).
      * intros (-> & Hx & j' & Hj' & _ & Hprev).
        exists j, uid. split; [f_equal; lia|].
        split; [by exists row'|]. right. by exists j'.
    + intros Hcell.
      assert (uid ∈ (list_to_set cells : gset string)
                    ∖ collected_uids self (drop 1 submission_data) ↔
              ∀ j, ¬ occurs (drop 1 submission_data) j uid) as Hmiss.
      { rewrite elem_of_difference, elem_of_list_to_set,
          elem_of_collected_uids. naive_solver. }
      split; [done|]. intros Hnever%Hmiss. split.
      * rewrite (run_reaching _ _ _ _ _ Hreach) in Hrun.
        injection Hrun as <-.
        do 3 (apply elem_of_cons; right).
        apply elem_of_app; right.
        apply elem_of_cons; right. apply elem_of_cons; left.
        unfold missing_result.
        rewrite bool_decide_eq_false_2; [done|]. set_solver.
      * intros Hsize. by apply elem_of_sorted_elements.
Qed.

Lemma incomplete_twice_reaches_row_loop :
  reaches_row_loop incomplete_twice (validator incomplete_twice)
    [["uid"; "type"; "request"]; ["a"; "GET"; "/x"]; ["c"; ""; "/y"];
     ["c"; "GET"; ""]]
    [["uid"]; ["a"]; ["c"]]
    ["a"; "c"].
Proof.
  exists "sub.csv". repeat split; try reflexivity; [done|].
  repeat constructor.
Defined.

Lemma incomplete_row_not_collected_witness :
  (∀ i results seen,
     (check_row (validator incomplete_twice) i ["c"; ""; "/y"] results seen).2
     = seen) ∧
  (∀ u,
     u ∈ collected_uids (validator incomplete_twice)
           [["a"; "GET"; "/x"]; ["c"; ""; "/y"]; ["c"; "GET"; ""]] ↔
     ∃ j, j ≠ 1 ∧
          occurs [["a"; "GET"; "/x"]; ["c"; ""; "/y"]; ["c"; "GET"; ""]] j u) ∧
  ∃ results,
    run_all_validations incomplete_twice (validator incomplete_twice)
    = Returned results ∧
    (∀ j row',
       1 < j →
       [["a"; "GET"; "/x"]; ["c"; ""; "/y"]; ["c"; "GET"; ""]] !! j
       = Some row' →
       head row' = Some "c" →
       ∀ x,
         uniqueness_failure (j + 2) x ∈ results ↔
         x = "c" ∧ complete_uid row' = Some "c" ∧
         ∃ j', j' < j ∧ j' ≠ 1 ∧
               occurs [["a"; "GET"; "/x"]; ["c"; ""; "/y"]; ["c"; "GET"; ""]]
                 j' "c") ∧
    ("c" ∈ ["a"; "c"] →
     ("c" ∈ list_to_set ["a"; "c"]
            ∖ collected_uids (validator incomplete_twice)
                [["a"; "GET"; "/x"]; ["c"; ""; "/y"]; ["c"; "GET"; ""]] ↔
      ∀ j, ¬ occurs [["a"; "GET"; "/x"]; ["c"; ""; "/y"]; ["c"; "GET"; ""]]
               j "c") ∧
     ((∀ j, ¬ occurs [["a"; "GET"; "/x"]; ["c"; ""; "/y"]; ["c"; "GET"; ""]]
                j "c") →
      ("Проверка наличия всех uid из test.csv", false,
       Some ("Отсутствуют записи для uid: "
             +:+ uid_listing
                   (list_to_set ["a"; "c"]
                    ∖ collected_uids (validator incomplete_twice)
                        [["a"; "GET"; "/x"]; ["c"; ""; "/y"];
                         ["c"; "GET"; ""]])))
      ∈ results ∧
      ((size (list_to_set ["a"; "c"]
              ∖ collected_uids (validator incomplete_twice)
                  [["a"; "GET"; "/x"]; ["c"; ""; "/y"]; ["c"; "GET"; ""]]
              : gset string)
        ≤ 5)%nat →
       "c" ∈ take 5 (sorted (elements
                       (list_to_set ["a"; "c"]
                        ∖ collected_uids (validator incomplete_twice)
                            [["a"; "GET"; "/x"]; ["c"; ""; "/y"];
                             ["c"; "GET"; ""]]
                        : gset string)))))).
Proof.
  apply (incomplete_row_not_collected incomplete_twice
           (validator incomplete_twice) _ _ _ 1 ["c"; ""; "/y"] "c"
           incomplete_twice_reaches_row_loop eq_refl eq_refl).
  apply elem_of_cons; right. apply elem_of_cons; by left.
Defined.

Example incomplete_twice_report :
  run_all_validations incomplete_twice (validator incomplete_twice)
  = Returned
      [submission_found; test_found; structure_ok;
       empty_values_failure 3; empty_values_failure 4;
       ("Проверка соответствия количества строк", false,
        Some "Некорректное количество строк: ожидается 2, найдено 3");
       ("Проверка наличия всех uid из test.csv", false,
        Some "Отсутствуют записи для uid: c");
       ("Проверка отсутствия лишних uid", true, None)].
Proof. vm_compute. reflexivity. Qed.

Lemma complete_before_incomplete_report :
  run_all_validations complete_before_incomplete
    (validator complete_before_incomplete)
  = Returned
      [submission_found; test_found; structure_ok;
       empty_values_failure 3; uniqueness_failure 4 "a";
       ("Проверка соответствия количества строк", false,
        Some "Некорректное количество строк: ожидается 1, найдено 3");
       ("Проверка наличия всех uid из test.csv", true, None);
       ("Проверка отсутствия лишних uid", true, None)].
Proof. vm_compute. reflexivity. Qed.

Lemma six_missing_report :
  run_all_validations six_missing (validator six_missing)
  = Returned
      [submission_found; test_found; structure_ok;
       empty_values_failure 2;
       ("Проверка соответствия количества строк", false,
        Some "Некорректное количество строк: ожидается 6, найдено 1");
       ("Проверка наличия всех uid из test.csv", false,
        Some "Отсутствуют записи для uid: a, b, c, d, e...");
       ("Проверка отсутствия лишних uid", true, None)].
Proof. vm_compute. reflexivity. Qed.

Lemma complete_after_incomplete_report :
  run_all_validations complete_after_incomplete
    (validator complete_after_incomplete)
  = Returned
      [submission_found; test_found; structure_ok;
       empty_values_failure 2;
       ("Проверка соответствия количества строк", false,
        Some "Некорректное количество строк: ожидается 1, найдено 2");
       ("Проверка наличия всех uid из test.csv", true, None);
       ("Проверка отсутствия лишних uid", true, None)].
Proof. vm_compute. reflexivity. Qed.

Lemma complete_before_incomplete_reaches_row_loop :
  reaches_row_loop complete_before_incomplete
    (validator complete_before_incomplete)
    [["uid"; "type"; "request"]; ["a"; "GET"; "/x"]; ["a"; ""; "/y"];
     ["a"; "GET"; "/z"]]
    [["uid"]; ["a"]] ["a"].
Proof.
  exists "sub.csv". repeat split; try reflexivity; [done|].
  repeat constructor.
Qed.

Lemma six_missing_reaches_row_loop :
  reaches_row_loop six_missing (validator six_missing)
    [["uid"; "type"; "request"]; ["z"; ""; "/x"]]
    [["uid"]; ["a"]; ["b"]; ["c"]; ["d"]; ["e"]; ["z"]]
    ["a"; "b"; "c"; "d"; "e"; "z"].
Proof.
  exists "sub.csv". repeat split; try reflexivity; [done|].
  repeat constructor.
Qed.

Lemma complete_after_incomplete_reaches_row_loop :
  reaches_row_loop complete_after_incomplete
    (validator complete_after_incomplete)
    [["uid"; "type"; "request"]; ["u"; ""; "/x"]; ["u"; "GET"; "/x"]]
    [["uid"]; ["u"]] ["u"].
Proof.
  exists "sub.csv". repeat split; try reflexivity; [done|].
  repeat constructor.
Qed.

(** C10, as stated, fails in three ways.  A row of three non-empty cells
    before the row with the empty cell makes a later row with the same uid a
    duplicate; with six missing uids the detail of the coverage check lists
    five and leaves the sixth out; and a later row of three non-empty cells
    with the same uid makes the coverage check pass. *)
Lemma incomplete_row_consequences_fail :
  (reaches_row_loop complete_before_incomplete
     (validator complete_before_incomplete)
     [["uid"; "type"; "request"]; ["a"; "GET"; "/x"]; ["a"; ""; "/y"];
      ["a"; "GET"; "/z"]]
     [["uid"]; ["a"]] ["a"] ∧
   "" ∈ ["a"; ""; "/y"] ∧
   ¬ incomplete_row_consequences complete_before_incomplete
       (validator complete_before_incomplete)
       [["a"; "GET"; "/x"]; ["a"; ""; "/y"]; ["a"; "GET"; "/z"]] ["a"]
       1 "a") ∧
  (reaches_row_loop six_missing (validator six_missing)
     [["uid"; "type"; "request"]; ["z"; ""; "/x"]]
     [["uid"]; ["a"]; ["b"]; ["c"]; ["d"]; ["e"]; ["z"]]
     ["a"; "b"; "c"; "d"; "e"; "z"] ∧
   "" ∈ ["z"; ""; "/x"] ∧
   ¬ incomplete_row_consequences six_missing (validator six_missing)
       [["z"; ""; "/x"]] ["a"; "b"; "c"; "d"; "e"; "z"] 0 "z") ∧
  (reaches_row_loop complete_after_incomplete
     (validator complete_after_incomplete)
     [["uid"; "type"; "request"]; ["u"; ""; "/x"]; ["u"; "GET"; "/x"]]
     [["uid"]; ["u"]] ["u"] ∧
   "" ∈ ["u"; ""; "/x"] ∧
   ¬ incomplete_row_consequences complete_after_incomplete
       (validator complete_after_incomplete)
       [["u"; ""; "/x"]; ["u"; "GET"; "/x"]] ["u"] 0 "u").
Proof.
  split; [|split].
  - split; [apply complete_before_incomplete_reaches_row_loop|].
    split; [apply elem_of_cons; right; apply elem_of_cons; by left|].
    intros (results & Hrun & Hlater & _).
    rewrite complete_before_incomplete_report in Hrun. injection Hrun as <-.
    apply (Hlater 2 ["a"; "GET"; "/z"] ltac:(lia) eq_refl eq_refl "a").
    do 4 (apply elem_of_cons; right). apply elem_of_cons; by left.
  - split; [apply six_missing_reaches_row_loop|].
    split; [apply elem_of_cons; right; apply elem_of_cons; by left|].
    intros (results & _ & _ & Hnamed).
    destruct Hnamed as [_ Hin].
    { do 5 (apply elem_of_cons; right). apply elem_of_cons; by left. }
    revert Hin. apply (bool_decide_unpack _). by vm_compute.
  - split; [apply complete_after_incomplete_reaches_row_loop|].
    split; [apply elem_of_cons; right; apply elem_of_cons; by left|].
    intros (results & Hrun & _ & Hnamed).
    destruct Hnamed as [Hin _]; [apply elem_of_cons; by left|].
    rewrite complete_after_incomplete_report in Hrun. injection Hrun as <-.
    repeat (apply elem_of_cons in Hin as [Hin|Hin]; [discriminate Hin|]).
    by apply elem_of_nil in Hin.
Qed.

(** ** Valid inputs *)

Lemma first_cells_row_uids rows :
  Forall (λ row : list string, row ≠ []) rows →
  first_cells rows = inr (row_uids rows).
Proof.
  induction 1 as [|row rows Hrow _ IH]; cbn [first_cells]; [done|].
  destruct row as [|c row]; [done|]. by rewrite IH.
Qed.

Lemma complete_uid_head row u : complete_uid row = Some u → head row = Some u.
Proof.
  unfold complete_uid. destruct row as [|a [|b [|c [|d row]]]]; try done.
  destruct (_ || _); [done|]. by intros [= ->].
Qed.

Lemma complete_rows_uids rows :
  Forall (λ row, is_Some (complete_uid row)) rows →
  omap complete_uid rows = row_uids rows ∧ length (row_uids rows) = length rows.
Proof.
  unfold row_uids.
  induction 1 as [|row rows [u Hu] _ [IH1 IH2]]; [done|].
  cbn [omap list_omap]. rewrite Hu, (complete_uid_head _ _ Hu), IH1.
  cbn [length]. by rewrite IH2.
Qed.

Lemma check_row_valid self i row seen u :
  complete_uid row = Some u →
  u ∉ seen →
  (∀ method, row !! 1 = Some method → method ∈ valid_methods self) →
  (∀ request, row !! 2 = Some request → String.prefix "/" request = true) →
  check_row self i row [] seen = ([], seen ∪ {[ u ]}).
Proof.
  intros Hu Hnew Hmethod Hpath. unfold check_row, complete_uid in *.
  destruct row as [|a [|b [|c [|d row]]]]; try done.
  destruct (bool_decide (a = "") || bool_decide (b = "")
            || bool_decide (c = "")); [done|].
  injection Hu as ->.
  rewrite (bool_decide_eq_false_2 _ Hnew).
  rewrite (bool_decide_eq_true_2 _ (Hmethod b eq_refl)).
  by rewrite (Hpath c eq_refl).
Qed.

Lemma row_loop_valid self rows : ∀ i seen,
  Forall (λ row, is_Some (complete_uid row)) rows →
  Forall (λ row, ∀ method, row !! 1 = Some method →
                           method ∈ valid_methods self) rows →
  Forall (λ row, ∀ request, row !! 2 = Some request →
                            String.prefix "/" request = true) rows →
  NoDup (row_uids rows) →
  (∀ u, u ∈ row_uids rows → u ∉ seen) →
  (row_loop self i rows [] seen).1 = [].
Proof.
  induction rows as [|row rows IH]; intros i seen Hc Hm Hp Hnd Hseen;
    cbn [row_loop]; [done|].
  apply Forall_cons in Hc as [[u Hu] Hc].
  apply Forall_cons in Hm as [Hm0 Hm].
  apply Forall_cons in Hp as [Hp0 Hp].
  unfold row_uids in Hnd, Hseen. cbn [omap list_omap] in Hnd, Hseen.
  rewrite (complete_uid_head _ _ Hu) in Hnd, Hseen.
  apply NoDup_cons in Hnd as [Hfresh Hnd].
  rewrite (check_row_valid self i row seen u) by set_solver.
  apply IH; try done.
  intros u' Hu'. specialize (Hseen u'). set_solver.
Qed.

Lemma NoDup_counted_once (l : list string) :
  (∀ u, u ∈ l → count_occ string_dec l u = 1) → NoDup l.
Proof.
  intros Hcount. apply NoDup_ListNoDup, NoDup_count_occ' with (decA := string_dec).
  intros u Hu. by apply Hcount, list_elem_of_In.
Qed.

(** C6, as the code has it: for a valid input pair whose reference data rows
    all have a first cell, every result of the report is passing.  (A
    reference data row without cells, which [csv.reader] yields for a blank
    line, makes [row[0]] raise, and the report then ends with the failing
    file-processing check.) *)
Theorem valid_input_all_pass (w : World) (self : SubmissionValidator)
    (submission_data test_data : list (list string)) :
  valid_input_pair w self submission_data test_data →
  Forall (λ row, row ≠ []) (drop 1 test_data) →
  all_checks_pass w self.
Proof.
  intros (sp & Hsp & Hes & Het & Hrs & Hrt & Hne & Hcomplete & Honce & Honly
          & Hmethods & Hpaths) Hcells.
  assert (Forall (λ row, is_Some (complete_uid row)) (drop 1 submission_data))
    as Hrows by by apply Forall_drop.
  destruct (complete_rows_uids _ Hrows) as [Homap Hlen].
  assert (NoDup (row_uids (drop 1 submission_data))) as Hnd.
  { apply NoDup_counted_once. intros u Hu. by apply Honce, Honly. }
  assert (collected_uids self (drop 1 submission_data)
          = list_to_set (row_uids (drop 1 test_data))) as Hsame.
  { unfold collected_uids. rewrite row_loop_uids, Homap.
    apply set_eq. intros u.
    rewrite elem_of_union, !elem_of_list_to_set. split.
    - intros [[]%elem_of_empty|Hu]. by apply Honly.
    - intros Hu. right. apply list_elem_of_In.
      apply (count_occ_In string_dec). rewrite (Honce u Hu). lia. }
  assert (reaches_row_loop w self submission_data test_data
            (row_uids (drop 1 test_data))) as Hreach.
  { exists sp. repeat split; try done.
    - eapply Forall_impl; [exact Hcomplete|].
      intros row [u Hu]. unfold complete_uid in Hu.
      by repeat case_match.
    - by apply first_cells_row_uids. }
  exists ([submission_found; test_found; structure_ok]
          ++ [] ++
          [("Проверка соответствия количества строк", true, None);
           ("Проверка наличия всех uid из test.csv", true, None);
           ("Проверка отсутствия лишних uid", true, None)]).
  split; [|by repeat constructor].
  rewrite (run_reaching _ _ _ _ _ Hreach).
  assert (row_results self (drop 1 submission_data) = []) as ->.
  { unfold row_results. by apply row_loop_valid. }
  assert (length (drop 1 submission_data)
          = size (list_to_set (row_uids (drop 1 test_data)) : gset string))
    as Hcount.
  { rewrite <- Hsame. unfold collected_uids.
    rewrite row_loop_uids, Homap, (left_id_L ∅ (∪)).
    by rewrite size_list_to_set. }
  unfold row_count_result, missing_result, extra_result.
  rewrite Hsame, (bool_decide_eq_true_2 _ Hcount).
  rewrite (bool_decide_eq_true_2 (_ ∖ _ = ∅)) by set_solver.
  done.
Qed.

Lemma scenario_B_valid :
  valid_input_pair scenario_B (validator scenario_B)
    [["uid"; "type"; "request"]; ["u1"; "GET"; "/api/x"]]
    [["uid"; "question"]; ["u1"; "q"]].
Proof.
  exists "sub.csv". repeat split; try reflexivity; try done.
  - repeat constructor; by eexists.
  - intros u ->%list_elem_of_singleton. reflexivity.
  - repeat constructor. intros method [= <-]. vm_compute. reflexivity.
  - repeat constructor. by intros request [= <-].
Defined.

Lemma valid_input_all_pass_witness :
  all_checks_pass scenario_B (validator scenario_B).
Proof.
  apply (valid_input_all_pass scenario_B (validator scenario_B)
           [["uid"; "type"; "request"]; ["u1"; "GET"; "/api/x"]]
           [["uid"; "question"]; ["u1"; "q"]] scenario_B_valid).
  repeat constructor; discriminate.
Defined.

(** C6, as stated, fails: with a blank line at the end of the reference file
    every condition on a valid input pair holds, and the report ends with a
    failing file-processing check. *)
Lemma blank_reference_row_fails :
  valid_input_pair blank_reference_row (validator blank_reference_row)
    [["uid"; "type"; "request"]; ["u1"; "GET"; "/api/x"]]
    [["uid"; "question"]; ["u1"; "q"]; []] ∧
  run_all_validations blank_reference_row (validator blank_reference_row)
  = Returned
      [submission_found; test_found; structure_ok;
       ("Проверка обработки файлов", false,
        Some "Ошибка при обработке файлов: list index out of range")] ∧
  ¬ all_checks_pass blank_reference_row (validator blank_reference_row).
Proof.
  assert (run_all_validations blank_reference_row
            (validator blank_reference_row)
          = Returned
              [submission_found; test_found; structure_ok;
               ("Проверка обработки файлов", false,
                Some "Ошибка при обработке файлов: list index out of range")])
    as Hrun by (vm_compute; reflexivity).
  split; [|split; [exact Hrun|]].
  - exists "sub.csv". repeat split; try reflexivity; try done.
    + repeat constructor; by eexists.
    + intros u ->%list_elem_of_singleton. reflexivity.
    + repeat constructor. intros method [= <-]. vm_compute. reflexivity.
    + repeat constructor. by intros request [= <-].
  - intros (results & Hresults & Hall). rewrite Hrun in Hresults.
    injection Hresults as <-.
    do 3 apply Forall_cons in Hall as [_ Hall].
    apply Forall_cons in Hall as [Hfalse _]. discriminate Hfalse.
Qed.

(** ** Further properties: the gates before the row loop *)

(** X1: when the submission file exists and the test file does not, the
    report is the passing submission-existence check followed by the failing
    test-existence check, whose detail names the missing path; nothing is
    read. *)
Theorem absent_test_file_two_results (w : World) (self : SubmissionValidator)
    (sp : Path) :
  submission_path self = Some sp →
  path_exists w sp = true →
  path_exists w (test_path self) = false →
  run_all_validations w self
  = Returned
      [("Проверка наличия submission файла", true, None);
       ("Проверка наличия test файла", false,
        Some ("Файл " +:+ test_path self +:+ " не найден"))].
Proof.
  intros Hsp Hes Het. unfold run_all_validations. by rewrite Hsp, Hes, Het.
Qed.

Lemma absent_test_file_two_results_witness :
  run_all_validations no_test_file (validator no_test_file)
  = Returned
      [("Проверка наличия submission файла", true, None);
       ("Проверка наличия test файла", false,
        Some "Файл /repo/test.csv не найден")].
Proof.
  apply (absent_test_file_two_results no_test_file (validator no_test_file)
           "sub.csv"); reflexivity.
Defined.

(** X2: when both files are read and the submission has no row at all, not
    even a header, the report ends with the failing structure check saying
    that the file is empty. *)
Theorem empty_submission_fails_structure (w : World)
    (self : SubmissionValidator) (sp : Path)
    (test_data : list (list string)) :
  submission_path self = Some sp →
  path_exists w sp = true →
  path_exists w (test_path self) = true →
  _read_csv w sp = inr [] →
  _read_csv w (test_path self) = inr test_data →
  run_all_validations w self
  = Returned
      [submission_found; test_found;
       ("Проверка структуры файла", false, Some "Файл submission.csv пуст")].
Proof.
  intros Hsp Hes Het Hrs Hrt. unfold run_all_validations, try_block.
  by rewrite Hsp, Hes, Het, Hrs, Hrt.
Qed.

Lemma empty_submission_fails_structure_witness :
  run_all_validations empty_submission (validator empty_submission)
  = Returned
      [submission_found; test_found;
       ("Проверка структуры файла", false, Some "Файл submission.csv пуст")].
Proof.
  apply (empty_submission_fails_structure empty_submission
           (validator empty_submission) "sub.csv"
           [["uid"; "question"]; ["1"; "q"]]); reflexivity.
Defined.

Lemma first_cells_blank rows :
  Exists (λ row : list string, row = []) rows →
  first_cells rows = inl (IndexError "list index out of range").
Proof.
  induction 1 as [row rows ->|row rows _ IH]; cbn [first_cells]; [done|].
  destruct row; [done|]. by rewrite IH.
Qed.

(** X3: when the structure check passes and a reference data row has no cell,
    collecting the reference uids raises [IndexError]: the report is the
    three passing gate checks followed by the failing file-processing check
    with the message of the [IndexError], whatever the submission rows are;
    no row is checked and no aggregate check is made. *)
Theorem blank_reference_row_aborts (w : World) (self : SubmissionValidator)
    (sp : Path) (submission_data test_data : list (list string)) :
  submission_path self = Some sp →
  path_exists w sp = true →
  path_exists w (test_path self) = true →
  _read_csv w sp = inr submission_data →
  _read_csv w (test_path self) = inr test_data →
  submission_data ≠ [] →
  Forall (λ row, length row = 3) submission_data →
  Exists (λ row, row = []) (drop 1 test_data) →
  run_all_validations w self
  = Returned
      [submission_found; test_found; structure_ok;
       ("Проверка обработки файлов", false,
        Some "Ошибка при обработке файлов: list index out of range")].
Proof.
  intros Hsp Hes Het Hrs Hrt Hne Hw Hblank.
  unfold run_all_validations, try_block.
  rewrite Hsp, Hes, Het, Hrs, Hrt; cbn [negb].
  rewrite bool_decide_eq_false_2 by (by destruct submission_data).
  rewrite forallb_width by done; cbn [negb].
  by rewrite first_cells_blank.
Qed.

Lemma blank_reference_row_aborts_witness :
  run_all_validations blank_reference_row (validator blank_reference_row)
  = Returned
      [submission_found; test_found; structure_ok;
       ("Проверка обработки файлов", false,
        Some "Ошибка при обработке файлов: list index out of range")].
Proof.
  apply (blank_reference_row_aborts blank_reference_row
           (validator blank_reference_row) "sub.csv"
           [["uid"; "type"; "request"]; ["u1"; "GET"; "/api/x"]]
           [["uid"; "question"]; ["u1"; "q"]; []]);
    try reflexivity; [done|repeat constructor|].
  apply Exists_cons_tl, Exists_cons_hd. reflexivity.
Defined.

(** ** Further properties: the checks of one row *)

Lemma elem_of_row_loop self rows : ∀ i seen x,
  x ∈ (row_loop self i rows [] seen).1 ↔
  ∃ k row,
    rows !! k = Some row ∧
    x ∈ (check_row self (i + k) row []
           (seen ∪ list_to_set (omap complete_uid (take k rows)))).1.
Proof.
  induction rows as [|row rows IH]; intros i seen x; cbn [row_loop].
  { split; [by intros ?%elem_of_nil|]. by intros (k & row & ? & _). }
  pose proof (check_row_uids self i row [] seen) as Hu.
  destruct (check_row self i row [] seen) as [rs us] eqn:Hrow;
    cbn [snd] in Hu.
  rewrite row_loop_app; cbn [fst]. rewrite elem_of_app, IH. split.
  - intros [Hx|(k & row' & Hk & Hx)].
    + exists 0, row. split; [done|].
      rewrite Nat.add_0_r. cbn [take omap list_omap list_to_set foldr].
      by rewrite (right_id_L ∅ (∪)), Hrow.
    + exists (S k), row'. split; [done|].
      rewrite <- Nat.add_succ_comm.
      replace (seen ∪ list_to_set (omap complete_uid (take (S k) (row :: rows))))
        with (us ∪ list_to_set (omap complete_uid (take k rows)));
        [done|].
      rewrite Hu. cbn [take omap list_omap].
      destruct (complete_uid row); cbn [list_to_set foldr]; set_solver.
  - intros ([|k] & row' & Hk & Hx).
    + left. injection Hk as <-. revert Hx.
      rewrite Nat.add_0_r. cbn [take omap list_omap list_to_set foldr].
      by rewrite (right_id_L ∅ (∪)), Hrow.
    + right. exists k, row'. split; [done|].
      rewrite <- Nat.add_succ_comm in Hx.
      replace (us ∪ list_to_set (omap complete_uid (take k rows)))
        with (seen ∪ list_to_set (omap complete_uid (take (S k) (row :: rows))));
        [done|].
      rewrite Hu. cbn [take omap list_omap].
      destruct (complete_uid row); cbn [list_to_set foldr]; set_solver.
Qed.

Lemma elem_of_check_row self i row seen x :
  x ∈ (check_row self i row [] seen).1 ↔
  ∃ uid method request,
    row = [uid; method; request] ∧
    ((complete_uid row = None ∧ x = empty_values_failure i) ∨
     (complete_uid row = Some uid ∧
      ((uid ∈ seen ∧ x = uniqueness_failure i uid) ∨
       ((method ∉ valid_methods self) ∧ x = method_failure self i method) ∨
       (String.prefix "/" request = false ∧ x = path_failure i request)))).
Proof.
  destruct row as [|uid [|method [|request [|extra row]]]];
    try (split; [by intros ?%elem_of_nil|by intros (? & ? & ? & ? & _)]).
  unfold check_row, complete_uid.
  destruct (bool_decide (uid = "") || bool_decide (method = "")
            || bool_decide (request = "")).
  { cbn [fst]. rewrite app_nil_l, list_elem_of_singleton. split.
    - intros ->. exists uid, method, request. split; [done|]. by left.
    - by intros (? & ? & ? & _ & [[_ ->]|[? _]]). }
  split.
  - intros Hx. exists uid, method, request. split; [done|]. right.
    split; [done|]. revert Hx.
    repeat case_bool_decide; destruct (String.prefix "/" request);
      cbn [fst negb app];
      rewrite ?elem_of_cons, ?elem_of_nil; naive_solver.
  - intros (? & ? & ? & [= <- <- <-] & [[? _]|[_ Hx]]); [done|].
    repeat case_bool_decide; destruct (String.prefix "/" request);
      cbn [fst negb app];
      rewrite ?elem_of_cons, ?elem_of_nil; naive_solver.
Qed.

Lemma empty_values_failure_inj i j :
  empty_values_failure i = empty_values_failure j → i = j.
Proof.
  unfold empty_values_failure. intros H. injection H as Hname _.
  apply String.app_inj, append_inj_r in Hname. by apply (inj pretty) in Hname.
Qed.

Lemma method_failure_inj self i j m1 m2 :
  method_failure self i m1 = method_failure self j m2 → i = j ∧ m1 = m2.
Proof.
  unfold method_failure. intros H. injection H as Hname Hdetail.
  apply String.app_inj, append_inj_r in Hname.
  apply (inj pretty) in Hname as ->. split; [done|].
  do 3 apply String.app_inj in Hdetail.
  by apply append_inj_r in Hdetail.
Qed.

Lemma path_failure_inj i j r1 r2 :
  path_failure i r1 = path_failure j r2 → i = j ∧ r1 = r2.
Proof.
  unfold path_failure. intros H. injection H as Hname Hdetail.
  apply String.app_inj, append_inj_r in Hname.
  apply (inj pretty) in Hname as ->. split; [done|].
  do 3 apply String.app_inj in Hdetail.
  by apply append_inj_r in Hdetail.
Qed.

(** Two results of different kinds are different. *)
Ltac kind_clash kind H :=
  apply (f_equal kind) in H; vm_compute in H; discriminate H.

Lemma report_entries w self submission_data test_data cells :
  reaches_row_loop w self submission_data test_data cells →
  ∃ results,
    run_all_validations w self = Returned results ∧
    ∀ x, x ∈ results ↔
         x ∈ row_results self (drop 1 submission_data) ∨
         x ∈ [submission_found; test_found; structure_ok;
              row_count_result (length (drop 1 submission_data))
                (list_to_set cells);
              missing_result (list_to_set cells)
                (collected_uids self (drop 1 submission_data));
              extra_result (list_to_set cells)
                (collected_uids self (drop 1 submission_data))].
Proof.
  intros Hreach. rewrite (run_reaching _ _ _ _ _ Hreach).
  eexists; split; [reflexivity|]. intros x.
  rewrite !elem_of_app, !elem_of_cons. naive_solver.
Qed.


Ltac not_fixed kind H :=
  exfalso;
  unfold submission_found, test_found, structure_ok, row_count_result,
    missing_result, extra_result in H;
  repeat (apply elem_of_cons in H as [H|H]);
  [..|by apply elem_of_nil in H];
  repeat match type of H with
         | context [negb ?c] => destruct (negb c)
         end;
  kind_clash kind H.

Lemma complete_uid_cells uid method request :
  complete_uid [uid; method; request] = Some uid ↔
  uid ≠ "" ∧ method ≠ "" ∧ request ≠ "".
Proof.
  unfold complete_uid. repeat case_bool_decide; cbn; naive_solver.
Qed.

Lemma complete_uid_None_iff (row : list string) :
  length row = 3 → complete_uid row = None ↔ "" ∈ row.
Proof.
  intros Hlen. destruct row as [|a [|b [|c [|d row]]]]; try done.
  unfold complete_uid. rewrite !elem_of_cons, elem_of_nil.
  repeat case_bool_decide; cbn; naive_solver.
Qed.

(** X5: in a run that reaches the row loop, the empty-values failure tagged
    with row [i] is in the report exactly when data row [i - 2] has an empty
    cell. *)
Theorem empty_values_flagged (w : World) (self : SubmissionValidator)
    (submission_data test_data : list (list string)) (cells : list string) :
  reaches_row_loop w self submission_data test_data cells →
  ∃ results,
    run_all_validations w self = Returned results ∧
    ∀ i,
      empty_values_failure i ∈ results ↔
      ∃ k row, i = k + 2 ∧ drop 1 submission_data !! k = Some row ∧ "" ∈ row.
Proof.
  intros Hreach.
  destruct (report_entries _ _ _ _ _ Hreach) as (results & Hrun & Hin).
  exists results. split; [done|]. intros i. rewrite Hin.
  assert (Forall (λ row, length row = 3) (drop 1 submission_data)) as Hwidth.
  { destruct Hreach as (sp & _ & _ & _ & _ & _ & _ & Hw & _).
    by apply Forall_drop. }
  unfold row_results. rewrite elem_of_row_loop. split.
  - intros [(k & row & Hk & Hx)|Hfixed];
      [|not_fixed is_empty_values_check Hfixed].
    exists k, row.
    apply elem_of_check_row in Hx
      as (uid & method & request & -> & [[Hnone Hx]|[_ [[_ Hx]|[[_ Hx]|[_ Hx]]]]]).
    + apply empty_values_failure_inj in Hx as ->.
      split; [lia|]. split; [done|]. by apply complete_uid_None_iff.
    + kind_clash is_empty_values_check Hx.
    + kind_clash is_empty_values_check Hx.
    + kind_clash is_empty_values_check Hx.
  - intros (k & row & -> & Hk & Hempty). left. exists k, row.
    split; [done|]. apply elem_of_check_row.
    pose proof (Forall_lookup_1 _ _ _ _ Hwidth Hk) as Hlen.
    destruct row as [|uid [|method [|request [|extra row]]]]; try done.
    exists uid, method, request. split; [done|]. left.
    split; [by apply complete_uid_None_iff|f_equal; lia].
Qed.

(** X6: in a run that reaches the row loop, the method failure tagged with
    row [i] and naming [method] is in the report exactly when data row
    [i - 2] has three non-empty cells and its second cell [method] is not a
    valid method; a row with an empty cell gets no method failure. *)
Theorem invalid_method_flagged (w : World) (self : SubmissionValidator)
    (submission_data test_data : list (list string)) (cells : list string) :
  reaches_row_loop w self submission_data test_data cells →
  ∃ results,
    run_all_validations w self = Returned results ∧
    ∀ i method,
      method_failure self i method ∈ results ↔
      ∃ k uid request,
        i = k + 2 ∧
        drop 1 submission_data !! k = Some [uid; method; request] ∧
        uid ≠ "" ∧ method ≠ "" ∧ request ≠ "" ∧
        method ∉ valid_methods self.
Proof.
  intros Hreach.
  destruct (report_entries _ _ _ _ _ Hreach) as (results & Hrun & Hin).
  exists results. split; [done|]. intros i method. rewrite Hin.
  unfold row_results. rewrite elem_of_row_loop. split.
  - intros [(k & row & Hk & Hx)|Hfixed]; [|not_fixed is_method_check Hfixed].
    apply elem_of_check_row in Hx
      as (uid & m & request & -> & [[_ Hx]|[Hsome [[_ Hx]|[[Hm Hx]|[_ Hx]]]]]).
    + kind_clash is_method_check Hx.
    + kind_clash is_method_check Hx.
    + apply method_failure_inj in Hx as [-> ->].
      apply complete_uid_cells in Hsome as (? & ? & ?).
      exists k, uid, request. repeat split; try done. lia.
    + kind_clash is_method_check Hx.
  - intros (k & uid & request & -> & Hk & Hu & Hm & Hr & Hbad). left.
    exists k, [uid; method; request]. split; [done|].
    apply elem_of_check_row. exists uid, method, request. split; [done|].
    right. split; [by apply complete_uid_cells|].
    right; left. split; [done|f_equal; lia].
Qed.

(** X7: in a run that reaches the row loop, the path failure tagged with row
    [i] and naming [request] is in the report exactly when data row [i - 2]
    has three non-empty cells and its third cell [request] does not start
    with a slash. *)
Theorem invalid_path_flagged (w : World) (self : SubmissionValidator)
    (submission_data test_data : list (list string)) (cells : list string) :
  reaches_row_loop w self submission_data test_data cells →
  ∃ results,
    run_all_validations w self = Returned results ∧
    ∀ i request,
      path_failure i request ∈ results ↔
      ∃ k uid method,
        i = k + 2 ∧
        drop 1 submission_data !! k = Some [uid; method; request] ∧
        uid ≠ "" ∧ method ≠ "" ∧ request ≠ "" ∧
        String.prefix "/" request = false.
Proof.
  intros Hreach.
  destruct (report_entries _ _ _ _ _ Hreach) as (results & Hrun & Hin).
  exists results. split; [done|]. intros i request. rewrite Hin.
  unfold row_results. rewrite elem_of_row_loop. split.
  - intros [(k & row & Hk & Hx)|Hfixed]; [|not_fixed is_path_check Hfixed].
    apply elem_of_check_row in Hx
      as (uid & method & r & -> & [[_ Hx]|[Hsome [[_ Hx]|[[_ Hx]|[Hp Hx]]]]]).
    + kind_clash is_path_check Hx.
    + kind_clash is_path_check Hx.
    + kind_clash is_path_check Hx.
    + apply path_failure_inj in Hx as [-> ->].
      apply complete_uid_cells in Hsome as (? & ? & ?).
      exists k, uid, method. repeat split; try done. lia.
  - intros (k & uid & method & -> & Hk & Hu & Hm & Hr & Hbad). left.
    exists k, [uid; method; request]. split; [done|].
    apply elem_of_check_row. exists uid, method, request. split; [done|].
    right. split; [by apply complete_uid_cells|].
    right; right. split; [done|f_equal; lia].
Qed.

(** ** Further properties: the report as a whole *)

Lemma row_results_failing self rows x :
  x ∈ row_results self rows →
  passed x = false ∧ is_gate_check x = false ∧
  name x ≠ "Проверка соответствия количества строк".
Proof.
  unfold row_results. intros (k & row & _ & Hx)%elem_of_row_loop.
  apply elem_of_check_row in Hx
    as (uid & method & request & _ & [[_ ->]|[_ [[_ ->]|[[_ ->]|[_ ->]]]]]);
    (split; [done|]); (split; [by vm_compute|]);
    intros H; apply (f_equal (String.prefix "Проверка с")) in H;
    vm_compute in H; discriminate H.
Qed.

(** Where a run that returns has ended: past the gates, in the row loop and
    the aggregate checks, or at a failing gate check that closes a report of
    passing ones. *)
Lemma run_cases w self results :
  run_all_validations w self = Returned results →
  (∃ submission_data test_data cells,
     reaches_row_loop w self submission_data test_data cells) ∨
  (∃ earlier last,
     results = earlier ++ [last] ∧
     Forall (λ r, passed r = true) earlier ∧
     passed last = false ∧ is_gate_check last = true).
Proof.
  unfold run_all_validations, try_block.
  destruct (submission_path self) as [sp|] eqn:Hsp; [|done].
  destruct (path_exists w sp) eqn:Hes; cbn [negb].
  2:{ intros [= <-]. right. eexists [], _. by repeat split. }
  destruct (path_exists w (test_path self)) eqn:Het; cbn [negb].
  2:{ intros [= <-]. right. eexists [_], _. by repeat split; repeat constructor. }
  destruct (_read_csv w sp) as [e|submission_data] eqn:Hrs.
  { intros [= <-]. right. eexists [_; _], _. by repeat split; repeat constructor. }
  destruct (_read_csv w (test_path self)) as [e|test_data] eqn:Hrt.
  { intros [= <-]. right. eexists [_; _], _. by repeat split; repeat constructor. }
  case_bool_decide as Hlen.
  { intros [= <-]. right. eexists [_; _], _. by repeat split; repeat constructor. }
  destruct (forallb _ submission_data) eqn:Hwidth; cbn [negb].
  2:{ intros [= <-]. right. eexists [_; _], _. by repeat split; repeat constructor. }
  destruct (first_cells (drop 1 test_data)) as [e|cells] eqn:Hcells.
  { intros [= <-]. right. eexists [_; _; _], _.
    by repeat split; repeat constructor. }
  intros _. left. exists submission_data, test_data, cells, sp.
  repeat split; try done.
  - by intros ->.
  - apply Forall_forall. intros row Hrow.
    rewrite forallb_forall in Hwidth.
    apply list_elem_of_In, Hwidth in Hrow. by apply bool_decide_eq_true in Hrow.
Qed.

Lemma fixed_entries_pass found (test_uids submission_uids : gset string) x :
  x ∈ [submission_found; test_found; structure_ok;
       row_count_result found test_uids;
       missing_result test_uids submission_uids;
       extra_result test_uids submission_uids] →
  is_gate_check x = true → passed x = true.
Proof.
  unfold row_count_result, missing_result, extra_result.
  intros Hx. repeat (apply elem_of_cons in Hx as [->|Hx]);
    [..|by apply elem_of_nil in Hx]; try done;
    by repeat case_bool_decide.
Qed.

(** X8: a failing existence, structure or file-processing check is always
    the last entry of the report: the run stops there. *)
Theorem failing_gate_is_last (w : World) (self : SubmissionValidator)
    (results earlier later : list CheckResult) (r : CheckResult) :
  run_all_validations w self = Returned results →
  results = earlier ++ r :: later →
  is_gate_check r = true →
  passed r = false →
  later = [].
Proof.
  intros Hrun -> Hgate Hfail.
  destruct (run_cases _ _ _ Hrun)
    as [(sd & td & cells & Hreach)|(l & x & Hl & Hpass & _ & _)].
  - destruct (report_entries _ _ _ _ _ Hreach) as (results & Hrun' & Hin).
    rewrite Hrun in Hrun'. injection Hrun' as <-.
    assert (r ∈ earlier ++ r :: later) as [Hr|Hr]%Hin by set_solver.
    + apply row_results_failing in Hr as (_ & ? & _). congruence.
    + apply fixed_entries_pass in Hr; congruence.
  - destruct later as [|y later _] using rev_ind; [done|].
    rewrite app_comm_cons, app_assoc in Hl.
    apply app_inj_tail in Hl as [<- _].
    rewrite Forall_app, Forall_cons in Hpass.
    destruct Hpass as (_ & ? & _). congruence.
Qed.

Lemma check_row_empty_values self i row uids :
  List.filter is_empty_values_check (check_row self i row [] uids).1
  = match row with
    | [_; _; _] =>
        match complete_uid row with
        | Some _ => []
        | None => [empty_values_failure i]
        end
    | _ => []
    end.
Proof.
  unfold check_row, complete_uid.
  repeat case_match; simplify_eq; reflexivity.
Qed.

Lemma row_loop_accounting self rows : ∀ i seen,
  Forall (λ row, length row = 3) rows →
  size (row_loop self i rows [] seen).2
  + length (List.filter is_empty_values_check (row_loop self i rows [] seen).1)
  + length (List.filter is_uniqueness_check (row_loop self i rows [] seen).1)
  = size seen + length rows.
Proof.
  induction rows as [|row rows IH]; intros i seen Hwidth; cbn [row_loop].
  { cbn. lia. }
  apply Forall_cons in Hwidth as [Hrow Hwidth].
  pose proof (check_row_uids self i row [] seen) as Hu.
  pose proof (check_row_uniqueness self i row seen) as Hd.
  pose proof (check_row_empty_values self i row seen) as He.
  destruct (check_row self i row [] seen) as [rs us];
    cbn [fst snd] in Hu, Hd, He.
  rewrite row_loop_app; cbn [fst snd].
  rewrite !List.filter_app, !length_app, Hd, He.
  specialize (IH (S i) us Hwidth). subst us.
  destruct row as [|a [|b [|c [|d row]]]]; try done.
  destruct (complete_uid [a; b; c]) as [u|]; [|cbn [length] in *; lia].
  case_bool_decide as Hin; cbn [length] in *.
  - replace (seen ∪ {[u]}) with seen in * by set_solver. lia.
  - rewrite size_union, size_singleton in IH by set_solver. lia.
Qed.

(** X9: in a run that reaches the row loop, every data row is accounted for
    once: the number of data rows is the number of empty-values failures
    plus the number of uniqueness failures plus the number of collected
    uids. *)
Theorem rows_accounted_for (w : World) (self : SubmissionValidator)
    (submission_data test_data : list (list string)) (cells : list string) :
  reaches_row_loop w self submission_data test_data cells →
  ∃ results,
    run_all_validations w self = Returned results ∧
    length (drop 1 submission_data)
    = length (List.filter is_empty_values_check results)
      + length (List.filter is_uniqueness_check results)
      + size (collected_uids self (drop 1 submission_data)).
Proof.
  intros Hreach. rewrite (run_reaching _ _ _ _ _ Hreach).
  eexists; split; [reflexivity|].
  assert (Forall (λ row, length row = 3) (drop 1 submission_data)) as Hwidth.
  { destruct Hreach as (sp & _ & _ & _ & _ & _ & _ & Hw & _).
    by apply Forall_drop. }
  pose proof (row_loop_accounting self _ 2 ∅ Hwidth) as Hacc.
  rewrite size_empty in Hacc.
  rewrite !List.filter_app, !length_app.
  unfold row_results, collected_uids, row_count_result, missing_result,
    extra_result.
  repeat case_bool_decide; cbn [negb List.filter length]; cbn; lia.
Qed.

Lemma check_row_length self i row seen :
  (length (check_row self i row [] seen).1 ≤ 3)%nat.
Proof.
  unfold check_row. repeat case_match; cbn; lia.
Qed.

Lemma row_loop_length self rows : ∀ i seen,
  (length (row_loop self i rows [] seen).1 ≤ 3 * length rows)%nat.
Proof.
  induction rows as [|row rows IH]; intros i seen; cbn [row_loop].
  { cbn. lia. }
  pose proof (check_row_length self i row seen) as Hrow.
  destruct (check_row self i row [] seen) as [rs us]; cbn [fst] in Hrow.
  rewrite row_loop_app; cbn [fst]. rewrite length_app.
  specialize (IH (S i) us). cbn [length]. lia.
Qed.

(** X10: in a run that reaches the row loop, the report has the three gate
    results, at most three results for each data row and the three aggregate
    results. *)
Theorem report_length_bounds (w : World) (self : SubmissionValidator)
    (submission_data test_data : list (list string)) (cells : list string) :
  reaches_row_loop w self submission_data test_data cells →
  ∃ results,
    run_all_validations w self = Returned results ∧
    (6 ≤ length results ≤ 6 + 3 * length (drop 1 submission_data))%nat.
Proof.
  intros Hreach. rewrite (run_reaching _ _ _ _ _ Hreach).
  eexists; split; [reflexivity|].
  rewrite !length_app. unfold row_results.
  pose proof (row_loop_length self (drop 1 submission_data) 2 ∅).
  cbn [length]. lia.
Qed.

Lemma differences_empty (X Y : gset string) :
  X ∖ Y = ∅ → Y ∖ X = ∅ → X = Y.
Proof.
  intros HXY HYX. apply set_eq. intros x.
  assert (x ∉ X ∖ Y) as Hx by (rewrite HXY; apply not_elem_of_empty).
  assert (x ∉ Y ∖ X) as Hy by (rewrite HYX; apply not_elem_of_empty).
  rewrite elem_of_difference in Hx, Hy.
  destruct (decide (x ∈ X)), (decide (x ∈ Y)); naive_solver.
Qed.

Lemma row_loop_nothing self rows : ∀ i seen,
  Forall (λ row, length row = 3) rows →
  (row_loop self i rows [] seen).1 = [] →
  Forall (accepted_row self) rows ∧
  NoDup (row_uids rows) ∧
  (∀ u, u ∈ row_uids rows → u ∉ seen) ∧
  omap complete_uid rows = row_uids rows.
Proof.
  induction rows as [|row rows IH]; intros i seen Hwidth; cbn [row_loop].
  { intros _. repeat split; try constructor. by intros u ?%elem_of_nil. }
  apply Forall_cons in Hwidth as [Hrow Hwidth].
  pose proof (check_row_uids self i row [] seen) as Hu.
  destruct (check_row self i row [] seen) as [rs us] eqn:Hcheck;
    cbn [snd] in Hu.
  rewrite row_loop_app; cbn [fst].
  intros [-> Hrest]%app_eq_nil.
  destruct (IH (S i) us Hwidth Hrest) as (Hacc & Hnd & Hfresh & Homap).
  destruct row as [|uid [|method [|request [|extra row]]]]; try done.
  assert (∀ x, x ∉ (check_row self i [uid; method; request] [] seen).1) as Hno.
  { intros x. rewrite Hcheck. apply not_elem_of_nil. }
  assert (complete_uid [uid; method; request] = Some uid) as Hsome.
  { destruct (complete_uid [uid; method; request]) as [u|] eqn:Hc.
    - by apply complete_uid_head in Hc as [= ->].
    - destruct (Hno (empty_values_failure i)).
      apply elem_of_check_row. exists uid, method, request. by split; [|left]. }
  rewrite Hsome in Hu. subst us.
  assert (uid ∉ seen) as Hnew.
  { intros Hin. destruct (Hno (uniqueness_failure i uid)).
    apply elem_of_check_row. exists uid, method, request.
    split; [done|]. right. split; [done|]. by left. }
  assert (method ∈ valid_methods self) as Hmethod.
  { destruct (decide (method ∈ valid_methods self)) as [|Hbad]; [done|].
    destruct (Hno (method_failure self i method)).
    apply elem_of_check_row. exists uid, method, request.
    split; [done|]. right. split; [done|]. right; by left. }
  assert (String.prefix "/" request = true) as Hpath.
  { destruct (String.prefix "/" request) eqn:Hp; [done|].
    destruct (Hno (path_failure i request)).
    apply elem_of_check_row. exists uid, method, request.
    split; [done|]. right. split; [done|]. right; by right. }
  apply complete_uid_cells in Hsome as Hne. destruct Hne as (? & ? & ?).
  unfold row_uids in *. cbn [omap list_omap head]. rewrite Hsome, Homap.
  repeat split.
  - constructor; [|done]. by exists uid, method, request.
  - constructor; [|done]. intros Hin. apply (Hfresh uid Hin). set_solver.
  - intros u [->|Hin]%elem_of_cons; [done|].
    specialize (Hfresh u Hin). set_solver.
Qed.

Lemma accepted_rows_complete self rows :
  Forall (accepted_row self) rows →
  Forall (λ row, is_Some (complete_uid row)) rows ∧
  Forall (λ row, ∀ method, row !! 1 = Some method →
                           method ∈ valid_methods self) rows ∧
  Forall (λ row, ∀ request, row !! 2 = Some request →
                            String.prefix "/" request = true) rows.
Proof.
  induction 1 as [|row rows (u & m & r & -> & ? & ? & ? & ? & ?) _ (IH1 & IH2 & IH3)];
    [by repeat split|].
  repeat split; constructor; try done.
  - exists u. by apply complete_uid_cells.
  - by intros ? [= <-].
  - by intros ? [= <-].
Qed.

(** X11: the report has only passing results exactly when the run reaches
    the row loop, every data row of the submission has three non-empty
    cells with a valid method and a path that starts with a slash, no uid
    is repeated, and the uids of the submission are the reference uids. *)
Theorem all_checks_pass_iff (w : World) (self : SubmissionValidator) :
  all_checks_pass w self ↔
  ∃ submission_data test_data cells,
    reaches_row_loop w self submission_data test_data cells ∧
    Forall (accepted_row self) (drop 1 submission_data) ∧
    NoDup (row_uids (drop 1 submission_data)) ∧
    ∀ u, u ∈ row_uids (drop 1 submission_data) ↔ u ∈ cells.
Proof.
  split.
  - intros (results & Hrun & Hpass).
    destruct (run_cases _ _ _ Hrun)
      as [(sd & td & cells & Hreach)|(l & x & -> & _ & Hfail & _)].
    2:{ apply Forall_app in Hpass as [_ [? _]%Forall_cons]. congruence. }
    exists sd, td, cells. split; [done|].
    assert (Forall (λ row, length row = 3) (drop 1 sd)) as Hwidth.
    { destruct Hreach as (sp & _ & _ & _ & _ & _ & _ & Hw & _).
      by apply Forall_drop. }
    rewrite (run_reaching _ _ _ _ _ Hreach) in Hrun. injection Hrun as <-.
    do 3 apply Forall_cons in Hpass as [_ Hpass].
    apply Forall_app in Hpass as [Hrows Hagg].
    assert (row_results self (drop 1 sd) = []) as Hnone.
    { destruct (row_results self (drop 1 sd)) as [|x rs] eqn:Hrs; [done|].
      apply Forall_cons in Hrows as [Hx _].
      assert (x ∈ row_results self (drop 1 sd)) as Hin by (rewrite Hrs; left).
      apply row_results_failing in Hin as [? _]. congruence. }
    destruct (row_loop_nothing self _ 2 ∅ Hwidth Hnone)
      as (Hacc & Hnd & _ & Homap).
    split; [done|]. split; [done|].
    apply Forall_cons in Hagg as [_ [Hmiss [Hextra _]%Forall_cons]%Forall_cons].
    unfold missing_result, extra_result, collected_uids in Hmiss, Hextra.
    rewrite row_loop_uids, Homap in Hmiss, Hextra.
    repeat case_bool_decide; try done.
    assert (∅ ∪ list_to_set (row_uids (drop 1 sd))
            = (list_to_set cells : gset string)) as Heq
      by by apply differences_empty.
    rewrite (left_id_L ∅ (∪)) in Heq. intros u.
    by rewrite <- (elem_of_list_to_set (C:=gset string) u (row_uids _)),
         Heq, elem_of_list_to_set.
  - intros (sd & td & cells & Hreach & Hacc & Hnd & Hsame).
    destruct (accepted_rows_complete _ _ Hacc) as (Hc & Hm & Hp).
    destruct (complete_rows_uids _ Hc) as [Homap Hlen].
    assert (collected_uids self (drop 1 sd) = list_to_set cells) as Hset.
    { unfold collected_uids. rewrite row_loop_uids, Homap. set_solver. }
    exists ([submission_found; test_found; structure_ok]
            ++ [] ++
            [("Проверка соответствия количества строк", true, None);
             ("Проверка наличия всех uid из test.csv", true, None);
             ("Проверка отсутствия лишних uid", true, None)]).
    split; [|by repeat constructor].
    rewrite (run_reaching _ _ _ _ _ Hreach).
    assert (row_results self (drop 1 sd) = []) as ->.
    { unfold row_results. by apply row_loop_valid. }
    assert (length (drop 1 sd) = size (list_to_set cells : gset string))
      as Hcount.
    { rewrite <- Hset. unfold collected_uids.
      rewrite row_loop_uids, Homap, (left_id_L ∅ (∪)).
      by rewrite size_list_to_set. }
    unfold row_count_result, missing_result, extra_result.
    rewrite Hset, (bool_decide_eq_true_2 _ Hcount).
    rewrite (bool_decide_eq_true_2 (_ ∖ _ = ∅)) by set_solver.
    done.
Qed.

(** X12: in a run that reaches the row loop, the row-count check is never
    the only failing check: when every other result is passing, it passes
    too. *)
Theorem row_count_never_fails_alone (w : World) (self : SubmissionValidator)
    (submission_data test_data : list (list string)) (cells : list string) :
  reaches_row_loop w self submission_data test_data cells →
  ∃ results,
    run_all_validations w self = Returned results ∧
    ((∀ r, r ∈ results →
           name r ≠ "Проверка соответствия количества строк" →
           passed r = true) →
     Forall (λ r, passed r = true) results).
Proof.
  intros Hreach.
  assert (Forall (λ row, length row = 3) (drop 1 submission_data)) as Hwidth.
  { destruct Hreach as (sp & _ & _ & _ & _ & _ & _ & Hw & _).
    by apply Forall_drop. }
  rewrite (run_reaching _ _ _ _ _ Hreach).
  eexists; split; [reflexivity|]. intros Hothers.
  assert (row_results self (drop 1 submission_data) = []) as Hnone.
  { destruct (row_results self (drop 1 submission_data)) as [|x rs] eqn:Hrs;
      [done|].
    assert (x ∈ row_results self (drop 1 submission_data)) as Hin
      by (rewrite Hrs; left).
    apply row_results_failing in Hin as (Hfail & _ & Hname).
    rewrite Hothers in Hfail; [done| |done].
    rewrite ?Hrs. do 3 (apply elem_of_cons; right).
    apply elem_of_app; left. apply elem_of_cons; by left. }
  destruct (row_loop_nothing self _ 2 ∅ Hwidth Hnone)
    as (Hacc & Hnd & _ & Homap).
  destruct (accepted_rows_complete _ _ Hacc) as (Hc & _ & _).
  destruct (complete_rows_uids _ Hc) as [_ Hlen].
  assert (passed (missing_result (list_to_set cells)
                    (collected_uids self (drop 1 submission_data))) = true)
    as Hmiss.
  { apply Hothers; [set_solver|]. unfold missing_result. by case_bool_decide. }
  assert (passed (extra_result (list_to_set cells)
                    (collected_uids self (drop 1 submission_data))) = true)
    as Hextra.
  { apply Hothers; [set_solver|]. unfold extra_result. by case_bool_decide. }
  assert (collected_uids self (drop 1 submission_data) = list_to_set cells)
    as Hset.
  { unfold missing_result, extra_result in Hmiss, Hextra.
    repeat case_bool_decide; try done. by apply differences_empty. }
  assert (length (drop 1 submission_data)
          = size (list_to_set cells : gset string)) as Hcount.
  { rewrite <- Hset. unfold collected_uids.
    rewrite row_loop_uids, Homap, (left_id_L ∅ (∪)).
    by rewrite size_list_to_set. }
  rewrite Hnone.
  unfold row_count_result. rewrite (bool_decide_eq_true_2 _ Hcount).
  repeat constructor; done.
Qed.

(** ** Further properties: what the report depends on *)

Lemma check_row_methods self self' i row results seen :
  valid_methods self = valid_methods self' →
  check_row self i row results seen = check_row self' i row results seen.
Proof. intros Hm. unfold check_row. by rewrite Hm. Qed.

Lemma row_loop_methods self self' rows : ∀ i results seen,
  valid_methods self = valid_methods self' →
  row_loop self i rows results seen = row_loop self' i rows results seen.
Proof.
  induction rows as [|row rows IH]; intros i results seen Hm;
    cbn [row_loop]; [done|].
  rewrite (check_row_methods self self') by done.
  destruct (check_row self' i row results seen). by apply IH.
Qed.

(** X13: past the structure check, the report is a function of the data
    rows of the submission, of the set of reference uids and of the valid
    methods: two runs that reach the row loop with the same data rows, the
    same set of first cells in the reference data rows and the same valid
    methods return the same report, whatever the two headers, the other
    reference columns and the order and repetitions of the reference rows
    are. *)
Theorem report_depends_on_data_rows (w w' : World)
    (self self' : SubmissionValidator)
    (submission_data submission_data' test_data test_data' : list (list string))
    (cells cells' : list string) :
  reaches_row_loop w self submission_data test_data cells →
  reaches_row_loop w' self' submission_data' test_data' cells' →
  drop 1 submission_data = drop 1 submission_data' →
  (∀ u, u ∈ cells ↔ u ∈ cells') →
  valid_methods self = valid_methods self' →
  run_all_validations w self = run_all_validations w' self'.
Proof.
  intros Hreach Hreach' Hrows Hcells Hmethods.
  rewrite (run_reaching _ _ _ _ _ Hreach), (run_reaching _ _ _ _ _ Hreach').
  assert ((list_to_set cells : gset string) = list_to_set cells') as ->.
  { apply set_eq. intros u. by rewrite !elem_of_list_to_set. }
  unfold row_results, collected_uids.
  by rewrite Hrows, (row_loop_methods self self').
Qed.

(** X14: the three aggregate results do not depend on the order of the
    submission data rows: two runs that reach the row loop with the same
    data rows in another order and the same set of reference uids end with
    the same row-count, coverage and extra-uid results. *)
Theorem aggregates_ignore_row_order (w w' : World)
    (self self' : SubmissionValidator)
    (submission_data submission_data' test_data test_data' : list (list string))
    (cells cells' : list string) :
  reaches_row_loop w self submission_data test_data cells →
  reaches_row_loop w' self' submission_data' test_data' cells' →
  drop 1 submission_data ≡ₚ drop 1 submission_data' →
  (∀ u, u ∈ cells ↔ u ∈ cells') →
  ∃ earlier earlier' row_count coverage extras,
    run_all_validations w self
    = Returned (earlier ++ [row_count; coverage; extras]) ∧
    run_all_validations w' self'
    = Returned (earlier' ++ [row_count; coverage; extras]).
Proof.
  intros Hreach Hreach' Hrows Hcells.
  rewrite (run_reaching _ _ _ _ _ Hreach), (run_reaching _ _ _ _ _ Hreach').
  assert ((list_to_set cells : gset string) = list_to_set cells') as ->.
  { apply set_eq. intros u. by rewrite !elem_of_list_to_set. }
  assert (collected_uids self (drop 1 submission_data)
          = collected_uids self' (drop 1 submission_data')) as ->.
  { unfold collected_uids. rewrite !row_loop_uids. by rewrite Hrows. }
  rewrite (Permutation_length Hrows).
  eexists _, _, _, _, _. split; by rewrite app_assoc.
Qed.

(** ** Further properties: [strip] and [_read_csv] *)

Lemma append_cons a s t : String a s +:+ t = String a (s +:+ t).
Proof. reflexivity. Qed.

Lemma append_nil_r s : s +:+ "" = s.
Proof. induction s as [|a s IH]; [done|]. by rewrite append_cons, IH. Qed.

Lemma append_assoc s t u : (s +:+ t) +:+ u = s +:+ t +:+ u.
Proof. induction s as [|a s IH]; [done|]. by rewrite !append_cons, IH. Qed.

Lemma rev_app_append s : ∀ acc t,
  String.rev_app s (acc +:+ t) = String.rev_app s acc +:+ t.
Proof.
  induction s as [|a s IH]; intros acc t; [done|].
  cbn [String.rev_app]. by rewrite <- IH.
Qed.

Lemma rev_app_rev s t : String.rev_app s t = String.rev s +:+ t.
Proof. unfold String.rev. by rewrite <- rev_app_append. Qed.

Lemma rev_app_of_append s t : ∀ acc,
  String.rev_app (s +:+ t) acc = String.rev_app t (String.rev_app s acc).
Proof.
  induction s as [|a s IH]; intros acc; [done|].
  rewrite append_cons. cbn [String.rev_app]. by rewrite IH.
Qed.

Lemma rev_append s t : String.rev (s +:+ t) = String.rev t +:+ String.rev s.
Proof.
  unfold String.rev at 1. by rewrite rev_app_of_append, rev_app_rev.
Qed.

Lemma rev_app_rev_app s : ∀ acc u,
  String.rev_app (String.rev_app s acc) u = String.rev_app acc (s +:+ u).
Proof.
  induction s as [|a s IH]; intros acc u; [done|].
  cbn [String.rev_app]. by rewrite IH.
Qed.

Lemma rev_involutive s : String.rev (String.rev s) = s.
Proof.
  unfold String.rev. rewrite rev_app_rev_app. cbn [String.rev_app].
  apply append_nil_r.
Qed.

Lemma rev_length s : String.length (String.rev s) = String.length s.
Proof.
  induction s as [|a s IH]; [done|].
  unfold String.rev. cbn [String.rev_app].
  rewrite (rev_app_rev s), append_length, IH. cbn [String.length]. lia.
Qed.

Lemma drop_prefix_Some p : ∀ s s',
  drop_prefix p s = Some s' ↔ s = p +:+ s'.
Proof.
  induction p as [|a p IH]; intros s s'; cbn [drop_prefix].
  { split; [by intros [= ->]|by intros ->]. }
  destruct s as [|b s]; [done|]. rewrite append_cons.
  destruct (Ascii.eqb_spec a b) as [->|Hne].
  - rewrite IH. split; [by intros ->|by intros [= ->]].
  - split; [done|]. by intros [= ? _].
Qed.

Lemma drop_first_of_Some ps s s' :
  drop_first_of ps s = Some s' → ∃ p, p ∈ ps ∧ s = p +:+ s'.
Proof.
  induction ps as [|p ps IH]; cbn [drop_first_of]; [done|].
  destruct (drop_prefix p s) as [s''|] eqn:Hp.
  - intros [= ->]. exists p. split; [left|]. by apply drop_prefix_Some.
  - intros (p' & ? & ?)%IH. exists p'. split; [by right|done].
Qed.

Lemma drop_first_of_None ps s :
  drop_first_of ps s = None ↔ ∀ p s', p ∈ ps → s ≠ p +:+ s'.
Proof.
  induction ps as [|p ps IH]; cbn [drop_first_of].
  { split; [|done]. by intros _ p s' ?%elem_of_nil. }
  destruct (drop_prefix p s) as [s''|] eqn:Hp.
  - split; [done|]. intros Hno. apply drop_prefix_Some in Hp.
    destruct (Hno p s''); [left|done].
  - rewrite IH. split.
    + intros Hno p' s' [->|Hin]%elem_of_cons; [|by apply Hno].
      intros Heq%drop_prefix_Some. congruence.
    + intros Hno p' s' Hin. apply Hno. by right.
Qed.

Lemma lstrip_with_fixed ps fuel s :
  drop_first_of ps s = None → lstrip_with ps fuel s = s.
Proof. intros Hno. destruct fuel; cbn [lstrip_with]; [done|]. by rewrite Hno. Qed.

Lemma lstrip_with_stripped ps : ∀ fuel s,
  Forall (λ p, p ≠ "") ps →
  (String.length s ≤ fuel)%nat →
  drop_first_of ps (lstrip_with ps fuel s) = None.
Proof.
  induction fuel as [|fuel IH]; intros s Hps Hlen; cbn [lstrip_with].
  - destruct s; [|cbn in Hlen; lia].
    apply drop_first_of_None. intros p s' Hin Heq.
    destruct p as [|a p]; [|done].
    by apply (proj1 (Forall_forall _ _) Hps "").
  - destruct (drop_first_of ps s) as [s'|] eqn:Hdrop; [|done].
    apply IH; [done|].
    apply drop_first_of_Some in Hdrop as (p & Hin & ->).
    rewrite append_length in Hlen.
    destruct p as [|a p];
      [exfalso; by apply (proj1 (Forall_forall _ _) Hps "")|].
    cbn [String.length] in Hlen. lia.
Qed.

(** What [lstrip_with] removes is a run of the sequences of [ps]. *)
Lemma lstrip_with_removed ps : ∀ fuel s,
  ∃ run, Forall (λ p, p ∈ ps) run ∧
         s = String.concat "" run +:+ lstrip_with ps fuel s.
Proof.
  induction fuel as [|fuel IH]; intros s; cbn [lstrip_with].
  { by exists []. }
  destruct (drop_first_of ps s) as [s'|] eqn:Hdrop; [|by exists []].
  apply drop_first_of_Some in Hdrop as (p & Hin & ->).
  destruct (IH s') as (run & Hrun & Hs').
  exists (p :: run). split; [by constructor|].
  rewrite Hs' at 1. destruct run as [|q run]; cbn [String.concat].
  - done.
  - by rewrite append_assoc.
Qed.

Lemma concat_cons x l : String.concat "" (x :: l) = x +:+ String.concat "" l.
Proof. destruct l; cbn [String.concat]; [by rewrite append_nil_r|done]. Qed.

Lemma concat_app l1 l2 :
  String.concat "" (l1 ++ l2) = String.concat "" l1 +:+ String.concat "" l2.
Proof.
  induction l1 as [|x l1 IH]; [done|].
  rewrite <- app_comm_cons, !concat_cons, IH. by rewrite append_assoc.
Qed.

Lemma rev_concat l :
  String.rev (String.concat "" l)
  = String.concat "" (reverse (map String.rev l)).
Proof.
  induction l as [|x l IH]; [done|].
  rewrite concat_cons, rev_append, IH. cbn [map].
  by rewrite reverse_cons, concat_app, concat_cons, append_nil_r.
Qed.

Lemma whitespace_nonempty : Forall (λ p, p ≠ "") whitespace.
Proof. apply (bool_decide_unpack _). by vm_compute. Qed.

Lemma reversed_whitespace_nonempty :
  Forall (λ p, p ≠ "") (map String.rev whitespace).
Proof. apply (bool_decide_unpack _). by vm_compute. Qed.

Lemma whitespace_run_reversed run :
  Forall (λ p, p ∈ map String.rev whitespace) run →
  whitespace_run (String.rev (String.concat "" run)).
Proof.
  intros Hrun. exists (reverse (map String.rev run)).
  split; [|apply rev_concat].
  apply Forall_reverse, Forall_fmap.
  eapply Forall_impl; [exact Hrun|].
  intros p (q & -> & Hq)%list_elem_of_fmap. cbn. by rewrite rev_involutive.
Qed.

Lemma strip_ends (s : string) :
  no_leading_whitespace (strip s) ∧ no_trailing_whitespace (strip s).
Proof.
  unfold strip, rstrip, no_leading_whitespace, no_trailing_whitespace.
  set (t := lstrip s).
  destruct (lstrip_with_removed (map String.rev whitespace)
              (String.length t) (String.rev t)) as (run & _ & Ht).
  set (X := lstrip_with (map String.rev whitespace) (String.length t)
              (String.rev t)) in *.
  apply (f_equal String.rev) in Ht.
  rewrite rev_involutive, rev_append in Ht. split.
  - apply drop_first_of_None. intros p s' Hp Heq.
    assert (drop_first_of whitespace t = None) as Hnone.
    { apply lstrip_with_stripped; [apply whitespace_nonempty|done]. }
    rewrite drop_first_of_None in Hnone.
    apply (Hnone p (s' +:+ String.rev (String.concat "" run)) Hp).
    by rewrite Ht, Heq, append_assoc.
  - rewrite rev_involutive.
    apply lstrip_with_stripped; [apply reversed_whitespace_nonempty|].
    by rewrite rev_length.
Qed.

Lemma strip_unchanged (s : string) :
  no_leading_whitespace s → no_trailing_whitespace s → strip s = s.
Proof.
  unfold strip, lstrip, rstrip, no_leading_whitespace, no_trailing_whitespace.
  intros Hlead Htrail.
  rewrite (lstrip_with_fixed whitespace _ s Hlead).
  rewrite (lstrip_with_fixed _ _ _ Htrail). apply rev_involutive.
Qed.

(** X15: [strip] removes a run of whitespace at each end and nothing else,
    and what it returns neither starts nor ends with whitespace. *)
Theorem strip_trims (s : string) :
  ∃ before after,
    whitespace_run before ∧ whitespace_run after ∧
    s = before +:+ strip s +:+ after ∧
    no_leading_whitespace (strip s) ∧
    no_trailing_whitespace (strip s).
Proof.
  destruct (lstrip_with_removed whitespace (String.length s) s)
    as (run1 & Hrun1 & Hs).
  destruct (lstrip_with_removed (map String.rev whitespace)
              (String.length (lstrip s)) (String.rev (lstrip s)))
    as (run2 & Hrun2 & Ht).
  apply (f_equal String.rev) in Ht.
  rewrite rev_involutive, rev_append in Ht.
  exists (String.concat "" run1), (String.rev (String.concat "" run2)).
  split; [by exists run1|]. split; [by apply whitespace_run_reversed|].
  split; [|apply strip_ends].
  rewrite Hs at 1. unfold strip, rstrip. fold (lstrip s). by rewrite <- Ht.
Qed.

(** X16: stripping twice is stripping once: a string that [strip] returned
    is left as it is. *)
Theorem strip_idempotent (s : string) : strip (strip s) = strip s.
Proof.
  destruct (strip_ends s) as [Hlead Htrail]. by apply strip_unchanged.
Qed.

Lemma append_prefix p x : ∀ q y,
  p +:+ x = q +:+ y → String.prefix p q = true ∨ String.prefix q p = true.
Proof.
  induction p as [|a p IH]; intros q y Heq.
  { left. by destruct q. }
  destruct q as [|b q]; [by right|].
  rewrite !append_cons in Heq. injection Heq as -> Heq.
  cbn [String.prefix]. destruct (ascii_dec b b); [|done]. by apply (IH q y).
Qed.

Lemma whitespace_prefix_free p q :
  p ∈ whitespace → q ∈ whitespace → String.prefix p q = true → p = q.
Proof.
  intros Hp Hq Hpre.
  assert (Forall (λ p, Forall (λ q, String.prefix p q = true → p = q)
                        whitespace) whitespace) as Hall.
  { apply (bool_decide_unpack _). by vm_compute. }
  rewrite Forall_forall in Hall. specialize (Hall p Hp).
  rewrite Forall_forall in Hall. by apply Hall.
Qed.

Lemma drop_first_of_whitespace p s :
  p ∈ whitespace → drop_first_of whitespace (p +:+ s) = Some s.
Proof.
  intros Hp.
  destruct (drop_first_of whitespace (p +:+ s)) as [s'|] eqn:Hdrop.
  - apply drop_first_of_Some in Hdrop as (q & Hq & Heq).
    assert (p = q) as <-.
    { destruct (append_prefix _ _ _ _ Heq) as [Hpre|Hpre].
      - by apply whitespace_prefix_free.
      - symmetry. by apply whitespace_prefix_free. }
    by apply String.app_inj in Heq as ->.
  - rewrite drop_first_of_None in Hdrop. by destruct (Hdrop p s Hp).
Qed.

Lemma lstrip_with_whitespace_run run : ∀ fuel,
  Forall (λ p, p ∈ whitespace) run →
  (length run ≤ fuel)%nat →
  lstrip_with whitespace fuel (String.concat "" run) = "".
Proof.
  induction run as [|p run IH]; intros fuel Hrun Hlen.
  { by destruct fuel. }
  apply Forall_cons in Hrun as [Hp Hrun].
  destruct fuel as [|fuel]; [cbn in Hlen; lia|].
  cbn [lstrip_with]. rewrite concat_cons, drop_first_of_whitespace by done.
  apply IH; [done|]. cbn [length] in Hlen. lia.
Qed.

Lemma concat_length run :
  Forall (λ p, p ≠ "") run →
  (length run ≤ String.length (String.concat "" run))%nat.
Proof.
  induction 1 as [|p run Hp _ IH]; [done|].
  rewrite concat_cons, append_length. destruct p; [done|].
  cbn [length String.length]. lia.
Qed.

(** X17: a string made of whitespace only is stripped to the empty string:
    a cell of blanks is read as an empty cell. *)
Theorem strip_whitespace_run (s : string) : whitespace_run s → strip s = "".
Proof.
  intros (run & Hrun & ->). unfold strip.
  assert (lstrip (String.concat "" run) = "") as ->; [|done].
  apply lstrip_with_whitespace_run; [done|].
  apply concat_length. eapply Forall_impl; [exact Hrun|].
  intros p Hp. by apply (proj1 (Forall_forall _ _) whitespace_nonempty).
Qed.

Lemma map_strip_cells (row : list string) :
  Forall2 (λ raw cell,
             cell = strip raw ∧
             no_leading_whitespace cell ∧ no_trailing_whitespace cell)
    row (map strip row).
Proof.
  induction row as [|raw row IH]; constructor; [|done].
  split; [done|apply strip_ends].
Qed.

(** X18: [_read_csv] returns a table exactly when the reader yields the rows
    of the file, and the table has the rows of the reader, cell by cell,
    stripped: as many rows, as many cells in each row, and no cell that
    starts or ends with whitespace.  When the reader fails with the message
    [e], [_read_csv] raises an exception whose message names the file and
    ends with [e]. *)
Theorem read_csv_strips_cells (w : World) (file_path : Path) :
  (∀ data,
     _read_csv w file_path = inr data ↔
     ∃ rows, csv_reader w file_path = inr rows ∧ data = map (map strip) rows) ∧
  (∀ data,
     _read_csv w file_path = inr data →
     ∃ rows,
       csv_reader w file_path = inr rows ∧
       Forall2 (Forall2 (λ raw cell,
                           cell = strip raw ∧
                           no_leading_whitespace cell ∧
                           no_trailing_whitespace cell)) rows data) ∧
  (∀ e,
     csv_reader w file_path = inl e →
     _read_csv w file_path
     = inl (Exception ("Не удалось прочитать файл " +:+ file_path
                       +:+ ": " +:+ e))).
Proof.
  unfold _read_csv. destruct (csv_reader w file_path) as [e|rows].
  - split; [|split].
    + intros data. split; [done|]. by intros (? & ? & _).
    + by intros data.
    + by intros e' [= ->].
  - split; [|split].
    + intros data. split.
      * intros [= <-]. by exists rows.
      * by intros (? & [= <-] & ->).
    + intros data [= <-]. exists rows. split; [done|].
      induction rows as [|row rows IH]; constructor; [|done].
      apply map_strip_cells.
    + by intros e.
Qed.

(** ** Instances of the further properties *)

Lemma invalid_rows_reach_row_loop :
  reaches_row_loop invalid_rows (validator invalid_rows)
    [["uid"; "type"; "request"]; ["a"; "get"; "x"]; [""; "FETCH"; "y"];
     ["b"; "GET"; "/ok"]]
    [["uid"]; ["a"]; ["b"]]
    ["a"; "b"].
Proof.
  exists "sub.csv". repeat split; try reflexivity; [done|].
  repeat constructor.
Defined.

Example invalid_rows_report :
  run_all_validations invalid_rows (validator invalid_rows)
  = Returned
      [submission_found; test_found; structure_ok;
       method_failure (validator invalid_rows) 2 "get";
       path_failure 2 "x";
       empty_values_failure 3;
       ("Проверка соответствия количества строк", false,
        Some "Некорректное количество строк: ожидается 2, найдено 3");
       ("Проверка наличия всех uid из test.csv", true, None);
       ("Проверка отсутствия лишних uid", true, None)].
Proof. vm_compute. reflexivity. Qed.

Lemma empty_values_flagged_witness :
  ∃ results,
    run_all_validations invalid_rows (validator invalid_rows)
    = Returned results ∧
    ∀ i,
      empty_values_failure i ∈ results ↔
      ∃ k row,
        i = k + 2 ∧
        [["a"; "get"; "x"]; [""; "FETCH"; "y"]; ["b"; "GET"; "/ok"]] !! k
        = Some row ∧
        "" ∈ row.
Proof.
  exact (empty_values_flagged _ _ _ _ _ invalid_rows_reach_row_loop).
Defined.

Lemma invalid_method_flagged_witness :
  ∃ results,
    run_all_validations invalid_rows (validator invalid_rows)
    = Returned results ∧
    ∀ i method,
      method_failure (validator invalid_rows) i method ∈ results ↔
      ∃ k uid request,
        i = k + 2 ∧
        [["a"; "get"; "x"]; [""; "FETCH"; "y"]; ["b"; "GET"; "/ok"]] !! k
        = Some [uid; method; request] ∧
        uid ≠ "" ∧ method ≠ "" ∧ request ≠ "" ∧
        method ∉ valid_methods (validator invalid_rows).
Proof.
  exact (invalid_method_flagged _ _ _ _ _ invalid_rows_reach_row_loop).
Defined.

Lemma invalid_path_flagged_witness :
  ∃ results,
    run_all_validations invalid_rows (validator invalid_rows)
    = Returned results ∧
    ∀ i request,
      path_failure i request ∈ results ↔
      ∃ k uid method,
        i = k + 2 ∧
        [["a"; "get"; "x"]; [""; "FETCH"; "y"]; ["b"; "GET"; "/ok"]] !! k
        = Some [uid; method; request] ∧
        uid ≠ "" ∧ method ≠ "" ∧ request ≠ "" ∧
        String.prefix "/" request = false.
Proof.
  exact (invalid_path_flagged _ _ _ _ _ invalid_rows_reach_row_loop).
Defined.

Lemma failing_gate_is_last_witness : @nil CheckResult = [].
Proof.
  apply (failing_gate_is_last narrow_row (validator narrow_row)
           [submission_found; test_found;
            ("Проверка структуры файла", false,
             Some "Некорректная структура файла: ожидается 3 колонки (uid;type;request)")]
           [submission_found; test_found]
           []
           ("Проверка структуры файла", false,
            Some "Некорректная структура файла: ожидается 3 колонки (uid;type;request)"));
    reflexivity.
Defined.

Lemma rows_accounted_for_witness :
  ∃ results,
    run_all_validations repeated_uids (validator repeated_uids)
    = Returned results ∧
    6 = length (List.filter is_empty_values_check results)
        + length (List.filter is_uniqueness_check results)
        + size (collected_uids (validator repeated_uids)
                  [["a"; "GET"; "/x"]; ["b"; ""; "/y"]; ["a"; "POST"; "/z"];
                   ["b"; "GET"; "/y"]; ["a"; "PUT"; "/q"]; ["c"; "GET"; ""]]).
Proof.
  exact (rows_accounted_for _ _ _ _ _ repeated_uids_reach_row_loop).
Defined.

Lemma report_length_bounds_witness :
  ∃ results,
    run_all_validations repeated_uids (validator repeated_uids)
    = Returned results ∧
    (6 ≤ length results ≤ 6 + 3 * 6)%nat.
Proof.
  exact (report_length_bounds _ _ _ _ _ repeated_uids_reach_row_loop).
Defined.

Lemma row_count_never_fails_alone_witness :
  ∃ results,
    run_all_validations scenario_A (validator scenario_A) = Returned results ∧
    ((∀ r, r ∈ results →
           name r ≠ "Проверка соответствия количества строк" →
           passed r = true) →
     Forall (λ r, passed r = true) results).
Proof.
  exact (row_count_never_fails_alone _ _ _ _ _ scenario_A_reaches_row_loop).
Defined.

Lemma scenario_A_other_headers_reaches_row_loop :
  reaches_row_loop scenario_A_other_headers (validator scenario_A_other_headers)
    [["id"; "method"; "path"]; ["1"; "GET"; "/a"]; ["2"; "POST"; "/b"]]
    [[]; ["3"]; ["2"; "q"; "r"]; ["1"]; ["3"; "again"]]
    ["3"; "2"; "1"; "3"].
Proof.
  exists "sub.csv". repeat split; try reflexivity; [done|].
  repeat constructor.
Defined.

Lemma scenario_A_reordered_reaches_row_loop :
  reaches_row_loop scenario_A_reordered (validator scenario_A_reordered)
    [["uid"; "type"; "request"]; ["2"; "POST"; "/b"]; ["1"; "GET"; "/a"]]
    [["uid"]; ["3"]; ["1"]; ["2"]]
    ["3"; "1"; "2"].
Proof.
  exists "sub.csv". repeat split; try reflexivity; [done|].
  repeat constructor.
Defined.

Lemma report_depends_on_data_rows_witness :
  run_all_validations scenario_A (validator scenario_A)
  = run_all_validations scenario_A_other_headers
      (validator scenario_A_other_headers).
Proof.
  apply (report_depends_on_data_rows _ _ _ _ _ _ _ _ _ _
           scenario_A_reaches_row_loop
           scenario_A_other_headers_reaches_row_loop);
    [reflexivity| |reflexivity].
  intros u. rewrite !elem_of_cons, !elem_of_nil. tauto.
Defined.

Lemma aggregates_ignore_row_order_witness :
  ∃ earlier earlier' row_count coverage extras,
    run_all_validations scenario_A (validator scenario_A)
    = Returned (earlier ++ [row_count; coverage; extras]) ∧
    run_all_validations scenario_A_reordered (validator scenario_A_reordered)
    = Returned (earlier' ++ [row_count; coverage; extras]).
Proof.
  apply (aggregates_ignore_row_order _ _ _ _ _ _ _ _ _ _
           scenario_A_reaches_row_loop
           scenario_A_reordered_reaches_row_loop).
  - apply perm_swap.
  - intros u. rewrite !elem_of_cons, !elem_of_nil. tauto.
Defined.

Lemma strip_whitespace_run_witness :
  strip (utf8 [32; 9; 226; 128; 131; 10]) = "".
Proof.
  apply strip_whitespace_run.
  exists [utf8 [32]; utf8 [9]; utf8 [226; 128; 131]; utf8 [10]].
  split; [|reflexivity].
  repeat constructor; apply (bool_decide_unpack _); by vm_compute.
Defined.
